(** * The 32-bit JIT bridge of skyline (jit/jit32.cpp)

    A shallow embedding of [skyline::jit::Jit32]: the register context
    model, the guest memory accessor, the halt-reason bitmask, the
    syscall dispatcher and the execution driver, followed by the
    properties the specification states about them.

    Conventions.  Every C++ unsigned integer ([u8], [u16], [u32], [u64],
    [size_t]) is a binary natural [N]; a cast to a narrower type is
    written out as a reduction modulo the width.  A [std::array] is a
    list whose length is the array's static size.  Host memory is a list
    of bytes and the host is little-endian. *)

From Stdlib Require Import NArith Lia Strings.Byte.
From stdpp Require Import base option list strings.

Local Open Scope N_scope.

(** ** Outcomes of a call

    A member function either returns, throws a [skyline::exception], or
    steps outside the language (an out-of-bounds subscript, an access
    outside the memory window): the source checks none of the latter, so
    the model makes them visible as [Undefined]. *)

Inductive exception : Type :=
| Unimplemented_SVC (swi : N).   (* "Unimplemented SVC 0x{:X}" *)

Inductive outcome (A : Type) : Type :=
| Ret (a : A)
| Throw (e : exception)
| Undefined.

Arguments Ret {A} a.
Arguments Throw {A} e.
Arguments Undefined {A}.

Definition outcome_bind {A B : Type} (f : A -> outcome B) (m : outcome A) : outcome B :=
  match m with
  | Ret a => f a
  | Throw e => Throw e
  | Undefined => Undefined
  end.

#[global] Instance outcome_mret : MRet outcome := fun _ a => Ret a.
#[global] Instance outcome_mbind : MBind outcome := fun _ _ f m => outcome_bind f m.

(** An unchecked subscript [a[i]]. *)
Definition subscript {A : Type} (a : list A) (i : N) : outcome A :=
  match a !! N.to_nat i with
  | Some x => Ret x
  | None => Undefined
  end.

(** An unchecked store [a[i] = x]. *)
Definition subscript_set {A : Type} (a : list A) (i : N) (x : A) : outcome (list A) :=
  if decide (N.to_nat i < length a)%nat then Ret (<[N.to_nat i := x]> a) else Undefined.

(** ** Fixed-width unsigned integers *)

Definition u8_max : N := 2 ^ 8.
Definition u32_modulus : N := 2 ^ 32.
Definition u64_modulus : N := 2 ^ 64.

(** [static_cast<u64>(x)] on a [u32]: zero extension. *)
Definition static_cast_u64 (x : N) : N := x mod u64_modulus.

(** [static_cast<u32>(x)] on a [u64]: the low 32 bits. *)
Definition static_cast_u32 (x : N) : N := x mod u32_modulus.

Definition is_u32 (x : N) : Prop := x < u32_modulus.

(** ** Bytes and object representations *)

Definition byte_of_N (x : N) : byte :=
  match Byte.of_N (x mod u8_max) with
  | Some b => b
  | None => x00
  end.

(** The object representation of an unsigned value of [n] bytes on the
    little-endian host, as [std::memcpy] sees it. *)
Fixpoint to_bytes (n : nat) (v : N) : list byte :=
  match n with
  | O => []
  | S n' => byte_of_N v :: to_bytes n' (v / u8_max)
  end.

Fixpoint of_bytes (bs : list byte) : N :=
  match bs with
  | [] => 0
  | b :: bs' => Byte.to_N b + u8_max * of_bytes bs'
  end.

(** [std::memcpy(&value, ptr, n)] out of the window [mem], [ptr] being
    [off] bytes past its base. *)
Definition memcpy_from (mem : list byte) (off : N) (n : nat) : outcome (list byte) :=
  if decide (N.to_nat off + n <= length mem)%nat
  then Ret (take n (drop (N.to_nat off) mem))
  else Undefined.

(** [std::memcpy(ptr, &value, n)] into the window. *)
Definition memcpy_to (mem : list byte) (off : N) (bs : list byte) : outcome (list byte) :=
  if decide (N.to_nat off + length bs <= length mem)%nat
  then Ret (take (N.to_nat off) mem ++ bs ++ drop (N.to_nat off + length bs) mem)
  else Undefined.

(** ** Guest memory accessor *)

(** The four instantiations of the [MemoryRead<T>] / [MemoryWrite<T>]
    templates. *)
Inductive Width : Type := U8 | U16 | U32 | U64.

Definition sizeof (T : Width) : N :=
  match T with U8 => 1 | U16 => 2 | U32 => 4 | U64 => 8 end.

Definition T_modulus (T : Width) : N := 2 ^ (8 * sizeof T).

(** [std::bit_width]: the number of bits needed to represent [x]. *)
Definition bit_width (x : N) : N :=
  match x with
  | 0 => 0
  | _ => N.succ (N.log2 x)
  end.

(** The two [constexpr] values of the accessor templates. *)
Definition bits (T : Width) : N := bit_width (sizeof T) - 1.
Definition mask (T : Width) : N := (N.shiftl 1 (bits T) - 1) mod u32_modulus.

(** [ReadUnaligned<T>(ptr)] with [ptr = base.data() + off]. *)
Definition ReadUnaligned (T : Width) (mem : list byte) (off : N) : outcome N :=
  bs ← memcpy_from mem off (N.to_nat (sizeof T));
  Ret (of_bytes bs).

(** [WriteUnaligned<T>(ptr, value)]. *)
Definition WriteUnaligned (T : Width) (mem : list byte) (off : N) (value : N)
  : outcome (list byte) :=
  memcpy_to mem off (to_bytes (N.to_nat (sizeof T)) value).

(** [base.cast<T>()[idx]]: the window seen as an array of [T], element
    [idx] occupying the [sizeof T] bytes from [idx * sizeof T]. *)
Definition cast_subscript (T : Width) (mem : list byte) (idx : N) : outcome N :=
  bs ← memcpy_from mem (idx * sizeof T) (N.to_nat (sizeof T));
  Ret (of_bytes bs).

(** [base.cast<T>()[idx] = value]. *)
Definition cast_subscript_set (T : Width) (mem : list byte) (idx : N) (value : N)
  : outcome (list byte) :=
  memcpy_to mem (idx * sizeof T) (to_bytes (N.to_nat (sizeof T)) value).

(** ** State

    [Jit] is [Dynarmic::A32::Jit] as the bridge sees it through
    [Regs()], [ExtRegs()], [Cpsr()]/[SetCpsr], [Fpscr()]/[SetFpscr] and
    the halt-reason word behind [HaltExecution]/[ClearHalt]. *)

Record Jit : Type := mkJit {
  Regs : list N;        (* std::array<u32, 16> *)
  ExtRegs : list N;     (* std::array<u32, 64> *)
  Cpsr : N;
  Fpscr : N;
  halt_reason : N
}.

(** [ThreadContext32], by the four members [SaveContext] assigns. *)
Record ThreadContext32 : Type := mkThreadContext32 {
  gpr : list N;
  fpr : list N;
  cpsr : N;
  fpscr : N
}.

(** [DeviceState], by the one member the bridge reaches:
    [state.process->memory.base]. *)
Record DeviceState : Type := mkDeviceState {
  memory_base : list byte
}.

(** [kernel::svc::SvcContext], by its member [regs]. *)
Record SvcContext : Type := mkSvcContext {
  regs : list N
}.

(** A handler receives the shared device state and the register window,
    which it mutates in place; it may throw. *)
Definition SvcFunction : Type :=
  DeviceState -> SvcContext -> outcome (DeviceState * SvcContext).

(** An entry of the syscall table, by the members [SvcHandler] uses:
    [function] and [name].  The entry converts to [true] exactly when it
    carries a handler ([Some]); an empty entry carries none. *)
Record SvcDescriptor : Type := mkSvcDescriptor {
  function : option SvcFunction;
  name : string
}.

(** What [TRACE_EVENT] and [LOGE] leave behind. *)
Inductive diagnostic : Type :=
| TRACE_EVENT (category : string) (name : string)
| LOGE_JIT_halted (haltReason : N).

(** [Jit32]: its data members, and the diagnostics written so far. *)
Record Jit32 : Type := mkJit32 {
  state : DeviceState;
  coreId : N;
  jit : Jit;
  lastSwi : N;
  diagnostics : list diagnostic
}.

Definition set_Regs (r : list N) (j : Jit) : Jit :=
  mkJit r (ExtRegs j) (Cpsr j) (Fpscr j) (halt_reason j).
Definition set_ExtRegs (r : list N) (j : Jit) : Jit :=
  mkJit (Regs j) r (Cpsr j) (Fpscr j) (halt_reason j).
Definition SetCpsr (v : N) (j : Jit) : Jit :=
  mkJit (Regs j) (ExtRegs j) v (Fpscr j) (halt_reason j).
Definition SetFpscr (v : N) (j : Jit) : Jit :=
  mkJit (Regs j) (ExtRegs j) (Cpsr j) v (halt_reason j).
Definition set_halt_reason (v : N) (j : Jit) : Jit :=
  mkJit (Regs j) (ExtRegs j) (Cpsr j) (Fpscr j) v.

Definition set_state (st : DeviceState) (s : Jit32) : Jit32 :=
  mkJit32 st (coreId s) (jit s) (lastSwi s) (diagnostics s).
Definition set_jit (j : Jit) (s : Jit32) : Jit32 :=
  mkJit32 (state s) (coreId s) j (lastSwi s) (diagnostics s).
Definition set_lastSwi (swi : N) (s : Jit32) : Jit32 :=
  mkJit32 (state s) (coreId s) (jit s) swi (diagnostics s).
Definition emit (d : diagnostic) (s : Jit32) : Jit32 :=
  mkJit32 (state s) (coreId s) (jit s) (lastSwi s) (diagnostics s ++ [d]).

(** The static sizes of the engine's register arrays. *)
Definition Regs_size : nat := 16.
Definition ExtRegs_size : nat := 64.

(** The register file holds [Regs_size] values of 32 bits. *)
Definition wf_Regs (r : list N) : Prop :=
  length r = Regs_size /\ Forall is_u32 r.

(** ** Halt-reason state machine *)

(** [HaltReason] is an [enum class] over [u32]; [Run] casts the engine's
    whole bitmask to it, so it ranges over all of [u32]. *)
Definition HaltReason : Type := N.

(** Modelled from the spec: [ToDynarmicHaltReason] is declared in a
    header that is not part of the sources; the abstract reason and the
    engine-native bitmask correspond losslessly by numeric cast. *)
Definition ToDynarmicHaltReason (hr : HaltReason) : N := hr.

(** Modelled from the spec: the engine's [HaltExecution] signals the
    reason on the reason bitmask. *)
Definition jit_HaltExecution (hr : N) (j : Jit) : Jit :=
  set_halt_reason (N.lor (halt_reason j) hr) j.

(** Modelled from the spec: the engine's [ClearHalt] removes exactly the
    bits of the reason from the bitmask and leaves the others. *)
Definition jit_ClearHalt (hr : N) (j : Jit) : Jit :=
  set_halt_reason (N.ldiff (halt_reason j) hr) j.

Definition HaltExecution (hr : HaltReason) (s : Jit32) : Jit32 :=
  set_jit (jit_HaltExecution (ToDynarmicHaltReason hr) (jit s)) s.

Definition ClearHalt (hr : HaltReason) (s : Jit32) : Jit32 :=
  set_jit (jit_ClearHalt (ToDynarmicHaltReason hr) (jit s)) s.

(** ** Register context model *)

Definition SaveContext (s : Jit32) (context : ThreadContext32) : ThreadContext32 :=
  let context := mkThreadContext32 (Regs (jit s)) (fpr context) (cpsr context) (fpscr context) in
  let context := mkThreadContext32 (gpr context) (ExtRegs (jit s)) (cpsr context) (fpscr context) in
  let context := mkThreadContext32 (gpr context) (fpr context) (Cpsr (jit s)) (fpscr context) in
  mkThreadContext32 (gpr context) (fpr context) (cpsr context) (Fpscr (jit s)).

Definition RestoreContext (context : ThreadContext32) (s : Jit32) : Jit32 :=
  let j := set_Regs (gpr context) (jit s) in
  let j := set_ExtRegs (fpr context) j in
  let j := SetCpsr (cpsr context) j in
  let j := SetFpscr (fpscr context) j in
  set_jit j s.

Definition SetThreadPointer (threadPtr : N) (s : Jit32) : Jit32 := s.
Definition SetTlsPointer (tlsPtr : N) (s : Jit32) : Jit32 := s.

Definition GetPC (s : Jit32) : outcome N := subscript (Regs (jit s)) 15.

Definition SetPC (pc : N) (s : Jit32) : outcome Jit32 :=
  r ← subscript_set (Regs (jit s)) 15 pc;
  Ret (set_jit (set_Regs r (jit s)) s).

Definition GetSP (s : Jit32) : outcome N := subscript (Regs (jit s)) 13.

Definition SetSP (sp : N) (s : Jit32) : outcome Jit32 :=
  r ← subscript_set (Regs (jit s)) 13 sp;
  Ret (set_jit (set_Regs r (jit s)) s).

Definition GetRegister (reg : N) (s : Jit32) : outcome N :=
  subscript (Regs (jit s)) reg.

Definition SetRegister (reg : N) (value : N) (s : Jit32) : outcome Jit32 :=
  r ← subscript_set (Regs (jit s)) reg value;
  Ret (set_jit (set_Regs r (jit s)) s).

(** ** Syscall dispatcher *)

(** [for (size_t i = first; i < first + count; i++) body], threading the
    object the body mutates. *)
Fixpoint for_loop {S : Type} (body : N -> S -> outcome S) (i : N) (count : nat) (s : S)
  : outcome S :=
  match count with
  | O => Ret s
  | S count' => s' ← body i s; for_loop body (N.succ i) count' s'
  end.

(** The element-wise copy both marshalling loops perform: slot [i] of
    the destination receives [f] of slot [i] of the source. *)
Definition copy_body (f : N -> N) (src : list N) (i : N) (dst : list N) : outcome (list N) :=
  x ← subscript src i;
  subscript_set dst i (f x).

(** Modelled from the spec: [kernel::svc::SvcContext] is declared in a
    header that is not part of the sources, so the static size of its
    [regs] array is not visible; the register window has one 64-bit slot
    per general-purpose register of the guest. *)
Definition SvcContext_regs_size : nat := 16.

(** [kernel::svc::SvcContext ctx{}]: value-initialised. *)
Definition SvcContext_init : SvcContext := mkSvcContext (replicate SvcContext_regs_size 0).

(** The marshalling loop of [MakeSvcContext] over the first [count]
    slots. *)
Definition widen_regs (jitRegs : list N) (count : nat) (ctx : SvcContext) : outcome SvcContext :=
  for_loop (fun i ctx =>
              x ← subscript jitRegs i;
              r ← subscript_set (regs ctx) i (static_cast_u64 x);
              Ret (mkSvcContext r))
           0 count ctx.

(** The marshalling loop of [ApplySvcContext]. *)
Definition narrow_regs (svcCtx : SvcContext) (count : nat) (jitRegs : list N) : outcome (list N) :=
  for_loop (fun i jitRegs =>
              x ← subscript (regs svcCtx) i;
              subscript_set jitRegs i (static_cast_u32 x))
           0 count jitRegs.

Definition MakeSvcContext (s : Jit32) : outcome SvcContext :=
  let ctx := SvcContext_init in
  let jitRegs := Regs (jit s) in
  widen_regs jitRegs (length (regs ctx)) ctx.

Definition ApplySvcContext (svcCtx : SvcContext) (s : Jit32) : outcome Jit32 :=
  jitRegs ← narrow_regs svcCtx (length (regs svcCtx)) (Regs (jit s));
  Ret (set_jit (set_Regs jitRegs (jit s)) s).

(** [kernel::svc::SvcTable] is declared in a header that is not part of
    the sources: the dispatcher takes the table as a parameter, an array
    of descriptors, and subscripts it with the syscall number without a
    range check, as the source does. *)
Definition SvcHandler (SvcTable : list SvcDescriptor) (swi : N) (s : Jit32) : outcome Jit32 :=
  svc ← subscript SvcTable swi;
  match function svc with
  | Some f =>
      let s := emit (TRACE_EVENT "kernel" (name svc)) s in
      svcContext ← MakeSvcContext s;
      r ← f (state s) svcContext;
      ApplySvcContext (snd r) (set_state (fst r) s)
  | None => Throw (Unimplemented_SVC swi)
  end.

(** ** Guest memory accessor on the bridge *)

(** [Jit32::MemoryRead<T>(vaddr)]. *)
Definition MemoryRead (T : Width) (vaddr : N) (s : Jit32) : outcome N :=
  if decide (N.land vaddr (mask T) = 0)
  then cast_subscript T (memory_base (state s)) (N.shiftr vaddr (bits T))
  else ReadUnaligned T (memory_base (state s)) vaddr.

(** [Jit32::MemoryWrite<T>(vaddr, value)]. *)
Definition MemoryWrite (T : Width) (vaddr : N) (value : N) (s : Jit32) : outcome Jit32 :=
  base ← (if decide (N.land vaddr (mask T) = 0)
          then cast_subscript_set T (memory_base (state s)) (N.shiftr vaddr (bits T)) value
          else WriteUnaligned T (memory_base (state s)) vaddr value);
  Ret (set_state (mkDeviceState base) s).

Definition MemoryRead8 := MemoryRead U8.
Definition MemoryRead16 := MemoryRead U16.
Definition MemoryRead32 := MemoryRead U32.
Definition MemoryRead64 := MemoryRead U64.
Definition MemoryWrite8 := MemoryWrite U8.
Definition MemoryWrite16 := MemoryWrite U16.
Definition MemoryWrite32 := MemoryWrite U32.
Definition MemoryWrite64 := MemoryWrite U64.

(** An access of [sizeof T] bytes at [vaddr] lies inside the window. *)
Definition in_window (T : Width) (vaddr : N) (s : Jit32) : Prop :=
  vaddr + sizeof T <= N.of_nat (length (memory_base (state s))).

(** The byte-wise reference: the byte at [vaddr + i] carries bits
    [8 i .. 8 i + 7] of the value. *)
Fixpoint reference_read (mem : list byte) (vaddr : N) (n : nat) : outcome N :=
  match n with
  | O => Ret 0
  | S n' =>
      b ← subscript mem vaddr;
      rest ← reference_read mem (N.succ vaddr) n';
      Ret (Byte.to_N b + u8_max * rest)
  end.

Fixpoint reference_write (mem : list byte) (vaddr : N) (n : nat) (value : N)
  : outcome (list byte) :=
  match n with
  | O => Ret mem
  | S n' =>
      mem' ← subscript_set mem vaddr (byte_of_N value);
      reference_write mem' (N.succ vaddr) n' (value / u8_max)
  end.

(** ** Execution driver *)

Section Driver.
(** The enumerator [HaltReason::Svc] (its value is fixed in a header
  outside the sources), the syscall table, and the engine's run
  primitive: it executes guest code, calling back into the bridge, and
  returns the halt-reason bitmask. *)
Variable Svc : HaltReason.
Variable SvcTable : list SvcDescriptor.
Variable jit_Run : Jit32 -> outcome (N * Jit32).

Definition CallSVC (swi : N) (s : Jit32) : Jit32 :=
  let s := set_lastSwi swi s in
  HaltExecution Svc s.

Definition Run (s : Jit32) : outcome Jit32 :=
  r ← jit_Run s;
  let haltReason : HaltReason := fst r in
  let s := ClearHalt haltReason (snd r) in
  if decide (haltReason = Svc)
  then SvcHandler SvcTable (lastSwi s) s
  else Ret (emit (LOGE_JIT_halted haltReason) s).
End Driver.

(** ** Concrete data for the scenarios *)

(** A handler that computes [r0 = r0 + r1] on the 64-bit window. *)
Definition svc_add_r0_r1 : SvcFunction := fun st ctx =>
  x0 ← subscript (regs ctx) 0;
  x1 ← subscript (regs ctx) 1;
  r ← subscript_set (regs ctx) 0 ((x0 + x1) mod u64_modulus);
  Ret (st, mkSvcContext r).

(** A table whose only populated entry is number [0x01]. *)
Definition scenario_SvcTable : list SvcDescriptor :=
  [mkSvcDescriptor None ""; mkSvcDescriptor (Some svc_add_r0_r1) "Add"].

Definition scenario_Regs : list N :=
  [5; 7; 0x20; 0x30; 0x40; 0x50; 0x60; 0x70; 0x80; 0x90; 0xA0; 0xB0; 0xC0;
   0x7FFFF000; 0xFFFFFFFF; 0x08000000].

Definition scenario_Jit : Jit :=
  mkJit scenario_Regs (replicate ExtRegs_size 0) 0x10 0 0.

(** A bridge over a window of [0x2000] zero bytes. *)
Definition scenario_Jit32 : Jit32 :=
  mkJit32 (mkDeviceState (replicate 0x2000%nat x00)) 0 scenario_Jit 0 [].

(** An engine whose run hits [svc #1] at once: the callback [CallSVC]
    fires and the engine hands back its reason bitmask. *)
Definition scenario_jit_Run (Svc : HaltReason) (s : Jit32) : outcome (N * Jit32) :=
  let s := CallSVC Svc 1 s in
  Ret (halt_reason (jit s), s).

(** An engine whose run hits [svc #swi] at once, for any number. *)
Definition engine_svc (Svc : HaltReason) (swi : N) (s : Jit32) : outcome (N * Jit32) :=
  let s := CallSVC Svc swi s in
  Ret (halt_reason (jit s), s).

(** A table of [0x80] entries whose only populated entry is number
    [0x01]. *)
Definition scenario_SvcTable_0x80 : list SvcDescriptor :=
  <[1%nat := mkSvcDescriptor (Some svc_add_r0_r1) "Add"]>
    (replicate 0x80%nat (mkSvcDescriptor None "")).

(** A window of two slots, the first with bits above the low 32, and a
    window with one slot more than the register file has registers. *)
Definition scenario_short_window : SvcContext := mkSvcContext [0x1FFFFFFFF; 2].
Definition scenario_long_window : SvcContext := mkSvcContext (replicate 17%nat 0).

(** * Properties *)

(** ** The outcome monad *)

Lemma bind_Ret {A B : Type} (f : A -> outcome B) (a : A) : (Ret a ≫= f) = f a.
Proof. reflexivity. Qed.

(** ** Object representations *)

Lemma u8_max_eq : u8_max = 256.
Proof. reflexivity. Qed.

Lemma byte_of_N_to_N (x : N) : Byte.to_N (byte_of_N x) = x mod u8_max.
Proof.
  unfold byte_of_N.
  destruct (Byte.of_N (x mod u8_max)) as [b|] eqn:E.
  - apply Byte.to_of_N. exact E.
  - apply Byte.of_N_None_iff in E.
    pose proof (N.mod_upper_bound x u8_max) as Hb.
    rewrite u8_max_eq in *. lia.
Qed.

Lemma byte_of_N_of_to_N (b : byte) : byte_of_N (Byte.to_N b) = b.
Proof.
  unfold byte_of_N.
  pose proof (Byte.to_N_bounded b) as Hb.
  rewrite N.mod_small by (rewrite u8_max_eq; lia).
  rewrite Byte.of_to_N. reflexivity.
Qed.

Lemma length_to_bytes (n : nat) (v : N) : length (to_bytes n v) = n.
Proof. revert v. induction n as [|n IH]; intros v; simpl; [reflexivity | now rewrite IH]. Qed.

(** Decoding an encoded value gives back its low [8 n] bits. *)
Lemma of_bytes_to_bytes (n : nat) (v : N) :
  of_bytes (to_bytes n v) = v mod 2 ^ (8 * N.of_nat n).
Proof.
  revert v. induction n as [|n IH]; intros v.
  - simpl. now rewrite N.mod_1_r.
  - cbn [to_bytes of_bytes]. rewrite byte_of_N_to_N, IH.
    replace (8 * N.of_nat (S n)) with (8 + 8 * N.of_nat n) by lia.
    rewrite N.pow_add_r. change (2 ^ 8) with u8_max.
    rewrite N.Div0.mod_mul_r. reflexivity.
Qed.

Lemma to_bytes_of_bytes (bs : list byte) : to_bytes (length bs) (of_bytes bs) = bs.
Proof.
  induction bs as [|b bs IH]; [reflexivity|].
  cbn [length to_bytes of_bytes].
  pose proof (Byte.to_N_bounded b) as Hb.
  assert (Hlt : Byte.to_N b < u8_max) by (rewrite u8_max_eq; lia).
  assert (Hne : u8_max <> 0) by (rewrite u8_max_eq; lia).
  f_equal.
  - rewrite <- (byte_of_N_of_to_N b) at 2. unfold byte_of_N.
    rewrite (N.mul_comm u8_max), N.Div0.mod_add. reflexivity.
  - rewrite (N.mul_comm u8_max), N.div_add by exact Hne.
    rewrite N.div_small by exact Hlt. exact IH.
Qed.

(** ** [memcpy] in and out of the window *)

Lemma memcpy_to_Ret (mem : list byte) (off : N) (bs : list byte) :
  (N.to_nat off + length bs <= length mem)%nat ->
  memcpy_to mem off bs
  = Ret (take (N.to_nat off) mem ++ bs ++ drop (N.to_nat off + length bs) mem).
Proof. intros H. unfold memcpy_to. now rewrite decide_True by exact H. Qed.

Lemma memcpy_to_length (mem mem' : list byte) (off : N) (bs : list byte) :
  memcpy_to mem off bs = Ret mem' -> length mem' = length mem.
Proof.
  unfold memcpy_to. case_decide as H; [|discriminate].
  intros [= <-]. rewrite !length_app, length_take, length_drop. lia.
Qed.

Lemma memcpy_from_to (mem mem' : list byte) (off : N) (bs : list byte) :
  memcpy_to mem off bs = Ret mem' -> memcpy_from mem' off (length bs) = Ret bs.
Proof.
  intros Hw. pose proof (memcpy_to_length _ _ _ _ Hw) as Hlen.
  unfold memcpy_to in Hw. case_decide as H; [|discriminate].
  injection Hw as <-.
  unfold memcpy_from. rewrite decide_True by lia. f_equal.
  rewrite drop_app_length' by (rewrite length_take; lia).
  rewrite take_app_length. reflexivity.
Qed.

(** ** Alignment arithmetic *)

Lemma bits_mask_values (T : Width) :
  mask T = N.ones (bits T) /\ sizeof T = 2 ^ bits T.
Proof. destruct T; split; reflexivity. Qed.

(** On an aligned address the element index of the aligned path names
    the byte offset the address itself names. *)
Lemma aligned_offset (T : Width) (vaddr : N) :
  N.land vaddr (mask T) = 0 -> N.shiftr vaddr (bits T) * sizeof T = vaddr.
Proof.
  destruct (bits_mask_values T) as [-> ->].
  rewrite N.land_ones, N.shiftr_div_pow2. intros Hmod.
  assert (Hne : 2 ^ bits T <> 0) by (apply N.pow_nonzero; lia).
  pose proof (N.div_mod vaddr (2 ^ bits T) Hne). lia.
Qed.

Lemma cast_subscript_aligned (T : Width) (mem : list byte) (vaddr : N) :
  N.land vaddr (mask T) = 0 ->
  cast_subscript T mem (N.shiftr vaddr (bits T)) = ReadUnaligned T mem vaddr.
Proof.
  intros H. unfold cast_subscript, ReadUnaligned. now rewrite aligned_offset by exact H.
Qed.

Lemma cast_subscript_set_aligned (T : Width) (mem : list byte) (vaddr value : N) :
  N.land vaddr (mask T) = 0 ->
  cast_subscript_set T mem (N.shiftr vaddr (bits T)) value = WriteUnaligned T mem vaddr value.
Proof.
  intros H. unfold cast_subscript_set, WriteUnaligned. now rewrite aligned_offset by exact H.
Qed.

(** Whatever the alignment, the accessor moves the [sizeof T] bytes at
    offset [vaddr]. *)
Lemma MemoryRead_ReadUnaligned (T : Width) (vaddr : N) (s : Jit32) :
  MemoryRead T vaddr s = ReadUnaligned T (memory_base (state s)) vaddr.
Proof.
  unfold MemoryRead. case_decide as H; [|reflexivity].
  now apply cast_subscript_aligned.
Qed.

Lemma MemoryWrite_WriteUnaligned (T : Width) (vaddr value : N) (s : Jit32) :
  MemoryWrite T vaddr value s
  = (base ← WriteUnaligned T (memory_base (state s)) vaddr value;
     Ret (set_state (mkDeviceState base) s)).
Proof.
  unfold MemoryWrite. case_decide as H; [|reflexivity].
  now rewrite cast_subscript_set_aligned by exact H.
Qed.

Lemma sizeof_to_nat_pos (T : Width) : (0 < N.to_nat (sizeof T))%nat.
Proof. destruct T; simpl; lia. Qed.

Lemma T_modulus_eq (T : Width) : T_modulus T = 2 ^ (8 * N.of_nat (N.to_nat (sizeof T))).
Proof. unfold T_modulus. now rewrite N2Nat.id. Qed.

(** ** The byte-wise reference *)

Lemma subscript_Some {A : Type} (a : list A) (i : N) (x : A) :
  a !! N.to_nat i = Some x -> subscript a i = Ret x.
Proof. intros H. unfold subscript. now rewrite H. Qed.

Lemma subscript_None {A : Type} (a : list A) (i : N) :
  (length a <= N.to_nat i)%nat -> subscript a i = Undefined.
Proof. intros H. unfold subscript. now rewrite (lookup_ge_None_2 a _ H). Qed.

Lemma subscript_set_Ret {A : Type} (a : list A) (i : N) (x : A) :
  (N.to_nat i < length a)%nat -> subscript_set a i x = Ret (<[N.to_nat i := x]> a).
Proof. intros H. unfold subscript_set. now rewrite decide_True by exact H. Qed.

Lemma reference_read_S (mem : list byte) (off : N) (n : nat) :
  reference_read mem off (S n)
  = (b ← subscript mem off;
     rest ← reference_read mem (N.succ off) n;
     Ret (Byte.to_N b + u8_max * rest)).
Proof. reflexivity. Qed.

Lemma reference_write_S (mem : list byte) (off value : N) (n : nat) :
  reference_write mem off (S n) value
  = (mem' ← subscript_set mem off (byte_of_N value);
     reference_write mem' (N.succ off) n (value / u8_max)).
Proof. reflexivity. Qed.

Lemma reference_read_in (mem : list byte) (n : nat) : forall off : N,
  (N.to_nat off + n <= length mem)%nat ->
  reference_read mem off n = Ret (of_bytes (take n (drop (N.to_nat off) mem))).
Proof.
  induction n as [|n IH]; intros off Hin; [reflexivity|].
  cbn [reference_read].
  destruct (lookup_lt_is_Some_2 mem (N.to_nat off)) as [b Hb]; [lia|].
  rewrite (subscript_Some _ _ _ Hb), bind_Ret.
  rewrite IH by (rewrite N2Nat.inj_succ; lia). rewrite bind_Ret.
  rewrite (drop_S _ _ _ Hb), N2Nat.inj_succ. reflexivity.
Qed.

Lemma reference_read_out (mem : list byte) (n : nat) : forall off : N,
  (length mem < N.to_nat off + S n)%nat ->
  reference_read mem off (S n) = Undefined.
Proof.
  induction n as [|n IH]; intros off Hout; rewrite reference_read_S.
  - rewrite subscript_None by lia. reflexivity.
  - destruct (decide (N.to_nat off < length mem)%nat) as [Hlt|Hge].
    + destruct (lookup_lt_is_Some_2 mem (N.to_nat off) Hlt) as [b Hb].
      rewrite (subscript_Some _ _ _ Hb), bind_Ret.
      rewrite IH by (rewrite N2Nat.inj_succ; lia). reflexivity.
    + rewrite subscript_None by lia. reflexivity.
Qed.

Lemma reference_read_spec (T : Width) (mem : list byte) (off : N) :
  reference_read mem off (N.to_nat (sizeof T)) = ReadUnaligned T mem off.
Proof.
  unfold ReadUnaligned, memcpy_from. case_decide as H.
  - now rewrite reference_read_in by exact H.
  - pose proof (sizeof_to_nat_pos T) as Hpos.
    destruct (N.to_nat (sizeof T)) as [|n]; [lia|].
    now rewrite reference_read_out by lia.
Qed.

Lemma reference_write_in (n : nat) : forall (mem : list byte) (off value : N),
  (N.to_nat off + n <= length mem)%nat ->
  reference_write mem off n value
  = Ret (take (N.to_nat off) mem ++ to_bytes n value ++ drop (N.to_nat off + n) mem).
Proof.
  induction n as [|n IH]; intros mem off value Hin.
  - cbn [reference_write to_bytes app]. rewrite Nat.add_0_r, take_drop. reflexivity.
  - cbn [reference_write to_bytes].
    rewrite subscript_set_Ret by lia. rewrite bind_Ret.
    rewrite IH by (rewrite length_insert, N2Nat.inj_succ; lia).
    rewrite N2Nat.inj_succ. f_equal.
    rewrite (take_S_r _ _ (byte_of_N value))
      by (apply list_lookup_insert_eq; lia).
    rewrite take_insert_ge by lia.
    rewrite drop_insert_lt by lia.
    rewrite <- app_assoc. cbn [app].
    replace (S (N.to_nat off) + n)%nat with (N.to_nat off + S n)%nat by lia.
    reflexivity.
Qed.

Lemma reference_write_out (n : nat) : forall (mem : list byte) (off value : N),
  (length mem < N.to_nat off + S n)%nat ->
  reference_write mem off (S n) value = Undefined.
Proof.
  induction n as [|n IH]; intros mem off value Hout; rewrite reference_write_S.
  - unfold subscript_set. rewrite decide_False by lia. reflexivity.
  - unfold subscript_set. case_decide as Hlt; [|reflexivity].
    rewrite bind_Ret.
    apply IH. rewrite length_insert, N2Nat.inj_succ. lia.
Qed.

Lemma reference_write_spec (T : Width) (mem : list byte) (off value : N) :
  reference_write mem off (N.to_nat (sizeof T)) value = WriteUnaligned T mem off value.
Proof.
  unfold WriteUnaligned, memcpy_to. rewrite length_to_bytes. case_decide as H.
  - now apply reference_write_in.
  - pose proof (sizeof_to_nat_pos T) as Hpos.
    destruct (N.to_nat (sizeof T)) as [|n]; [lia|].
    apply reference_write_out. lia.
Qed.

(** ** Guest memory accessor: round trip and refinement *)

Lemma in_window_nat (T : Width) (vaddr : N) (s : Jit32) :
  in_window T vaddr s ->
  (N.to_nat vaddr + N.to_nat (sizeof T) <= length (memory_base (state s)))%nat.
Proof. unfold in_window. lia. Qed.

Lemma ReadUnaligned_WriteUnaligned (T : Width) (mem mem' : list byte) (off value : N) :
  WriteUnaligned T mem off value = Ret mem' ->
  ReadUnaligned T mem' off = Ret (value mod T_modulus T).
Proof.
  unfold WriteUnaligned, ReadUnaligned. intros Hw.
  apply memcpy_from_to in Hw. rewrite length_to_bytes in Hw.
  rewrite Hw, bind_Ret, of_bytes_to_bytes, <- T_modulus_eq. reflexivity.
Qed.

(** C1.  For each of the four widths and every address whose access
    lies inside the memory window, aligned for the width or not, writing
    a value of that width and then reading the same address returns
    exactly the value written. *)
Theorem MemoryWrite_MemoryRead_roundtrip (T : Width) (vaddr value : N) (s : Jit32) :
  in_window T vaddr s ->
  value < T_modulus T ->
  exists s', MemoryWrite T vaddr value s = Ret s' /\ MemoryRead T vaddr s' = Ret value.
Proof.
  intros Hwin Hval. apply in_window_nat in Hwin.
  rewrite MemoryWrite_WriteUnaligned.
  destruct (WriteUnaligned T (memory_base (state s)) vaddr value) as [base'| |] eqn:Hw.
  - exists (set_state (mkDeviceState base') s). split; [reflexivity|].
    rewrite MemoryRead_ReadUnaligned. cbn [set_state state memory_base].
    rewrite (ReadUnaligned_WriteUnaligned _ _ _ _ _ Hw).
    now rewrite N.mod_small by exact Hval.
  - unfold WriteUnaligned in Hw. rewrite memcpy_to_Ret in Hw by (rewrite length_to_bytes; lia).
    discriminate.
  - unfold WriteUnaligned in Hw. rewrite memcpy_to_Ret in Hw by (rewrite length_to_bytes; lia).
    discriminate.
Qed.

(** The scenario of the specification: a 16-bit store at the odd
    address [0x1001] takes the byte-copy path and reads back [0xABCD]. *)
Lemma MemoryWrite_MemoryRead_roundtrip_witness :
  in_window U16 0x1001 scenario_Jit32 /\
  0xABCD < T_modulus U16 /\
  N.land 0x1001 (mask U16) <> 0 /\
  exists s', MemoryWrite16 0x1001 0xABCD scenario_Jit32 = Ret s'
             /\ MemoryRead16 0x1001 s' = Ret 0xABCD.
Proof.
  assert (Hwin : in_window U16 0x1001 scenario_Jit32) by (vm_compute; discriminate).
  assert (Hval : 0xABCD < T_modulus U16) by reflexivity.
  split; [exact Hwin|]. split; [exact Hval|]. split; [vm_compute; discriminate|].
  exact (MemoryWrite_MemoryRead_roundtrip U16 0x1001 0xABCD scenario_Jit32 Hwin Hval).
Defined.

(** C6.  The aligned array-indexed path and the unaligned byte-copy path
    carry the same value semantics: at every address the accessor agrees
    with the byte-wise reference, for reads and for writes; on an
    aligned address the two data-movement strategies give the same
    result, and the accessor takes the array-indexed one there and the
    byte-copy one elsewhere. *)
Theorem MemoryRead_refines_reference (T : Width) (vaddr value : N) (s : Jit32) :
  MemoryRead T vaddr s
  = reference_read (memory_base (state s)) vaddr (N.to_nat (sizeof T))
  /\ MemoryWrite T vaddr value s
     = (base ← reference_write (memory_base (state s)) vaddr (N.to_nat (sizeof T)) value;
        Ret (set_state (mkDeviceState base) s))
  /\ (N.land vaddr (mask T) = 0 ->
      MemoryRead T vaddr s
      = cast_subscript T (memory_base (state s)) (N.shiftr vaddr (bits T))
      /\ cast_subscript T (memory_base (state s)) (N.shiftr vaddr (bits T))
         = ReadUnaligned T (memory_base (state s)) vaddr
      /\ cast_subscript_set T (memory_base (state s)) (N.shiftr vaddr (bits T)) value
         = WriteUnaligned T (memory_base (state s)) vaddr value)
  /\ (N.land vaddr (mask T) <> 0 ->
      MemoryRead T vaddr s = ReadUnaligned T (memory_base (state s)) vaddr).
Proof.
  split; [|split; [|split]].
  - rewrite reference_read_spec. apply MemoryRead_ReadUnaligned.
  - rewrite reference_write_spec. apply MemoryWrite_WriteUnaligned.
  - intros Hal. split; [|split].
    + unfold MemoryRead. now rewrite decide_True by exact Hal.
    + now apply cast_subscript_aligned.
    + now apply cast_subscript_set_aligned.
  - intros Hun. unfold MemoryRead. now rewrite decide_False by exact Hun.
Qed.

(** The reference and both paths on the window of the scenario: the
    aligned address [0x1000] and the unaligned address [0x1001]. *)
Lemma MemoryRead_refines_reference_witness :
  N.land 0x1000 (mask U32) = 0 /\
  N.land 0x1001 (mask U32) <> 0 /\
  cast_subscript U32 (memory_base (state scenario_Jit32)) (N.shiftr 0x1000 (bits U32))
  = ReadUnaligned U32 (memory_base (state scenario_Jit32)) 0x1000 /\
  MemoryRead U32 0x1001 scenario_Jit32
  = ReadUnaligned U32 (memory_base (state scenario_Jit32)) 0x1001.
Proof.
  assert (Hal : N.land 0x1000 (mask U32) = 0) by reflexivity.
  assert (Hun : N.land 0x1001 (mask U32) <> 0) by (vm_compute; discriminate).
  split; [exact Hal|]. split; [exact Hun|]. split.
  - exact (proj1 (proj2 (proj1 (proj2 (proj2
      (MemoryRead_refines_reference U32 0x1000 0xDEADBEEF scenario_Jit32))) Hal))).
  - exact (proj2 (proj2 (proj2
      (MemoryRead_refines_reference U32 0x1001 0xDEADBEEF scenario_Jit32))) Hun).
Defined.

(** The little-endian scenario of the specification: after a 32-bit
    store of [0xDEADBEEF] at [0x1000] the four bytes read back, lowest
    address first, as [0xEF], [0xBE], [0xAD], [0xDE]. *)
Example MemoryWrite32_MemoryRead8 :
  exists s', MemoryWrite32 0x1000 0xDEADBEEF scenario_Jit32 = Ret s'
             /\ MemoryRead8 0x1000 s' = Ret 0xEF
             /\ MemoryRead8 0x1001 s' = Ret 0xBE
             /\ MemoryRead8 0x1002 s' = Ret 0xAD
             /\ MemoryRead8 0x1003 s' = Ret 0xDE.
Proof. eexists. repeat split; vm_compute; reflexivity. Qed.

(** ** Register context model *)

Lemma set_jit_eta (s : Jit32) : set_jit (set_Regs (Regs (jit s)) (jit s)) s = s.
Proof. destruct s as [st c [r e cp fp h] l d]. reflexivity. Qed.

(** C4.  [SaveContext] is total and copies the four fields of the live
    register context into the snapshot unchanged; restoring that
    snapshot at once leaves the bridge, and with it all four fields,
    exactly as it was before the save. *)
Theorem SaveContext_RestoreContext (s : Jit32) (context : ThreadContext32) :
  let saved := SaveContext s context in
  gpr saved = Regs (jit s)
  /\ fpr saved = ExtRegs (jit s)
  /\ cpsr saved = Cpsr (jit s)
  /\ fpscr saved = Fpscr (jit s)
  /\ RestoreContext saved s = s
  /\ Regs (jit (RestoreContext saved s)) = Regs (jit s)
  /\ ExtRegs (jit (RestoreContext saved s)) = ExtRegs (jit s)
  /\ Cpsr (jit (RestoreContext saved s)) = Cpsr (jit s)
  /\ Fpscr (jit (RestoreContext saved s)) = Fpscr (jit s).
Proof.
  destruct s as [st c [r e cp fp h] l d]. cbv zeta.
  repeat split; reflexivity.
Qed.

(** A restore overwrites the four live fields completely, whatever they
    held, and touches nothing else. *)
Lemma RestoreContext_overwrites (context : ThreadContext32) (s : Jit32) :
  jit (RestoreContext context s)
  = mkJit (gpr context) (fpr context) (cpsr context) (fpscr context) (halt_reason (jit s))
  /\ state (RestoreContext context s) = state s
  /\ lastSwi (RestoreContext context s) = lastSwi s.
Proof. repeat split; reflexivity. Qed.

(** C8.  The named accessors are the indexed accessors at 15 (program
    counter) and 13 (stack pointer): they read the same slot and leave
    the same state behind. *)
Theorem named_accessors_indexed (s : Jit32) (v : N) :
  GetPC s = GetRegister 15 s
  /\ GetSP s = GetRegister 13 s
  /\ SetPC v s = SetRegister 15 v s
  /\ SetSP v s = SetRegister 13 v s.
Proof. unfold GetPC, GetSP, SetPC, SetSP, GetRegister, SetRegister. repeat split; reflexivity. Qed.

Lemma GetRegister_SetRegister (reg value : N) (s : Jit32) :
  (N.to_nat reg < length (Regs (jit s)))%nat ->
  exists s', SetRegister reg value s = Ret s' /\ GetRegister reg s' = Ret value.
Proof.
  intros Hlt. unfold SetRegister. rewrite subscript_set_Ret by exact Hlt.
  eexists. split; [reflexivity|].
  unfold GetRegister. cbn [set_jit set_Regs jit Regs].
  apply subscript_Some, list_lookup_insert_eq. exact Hlt.
Qed.

(** With a register file of sixteen slots, what [SetPC] stores is what
    indexed access at 15 reads, and likewise for the stack pointer. *)
Lemma named_accessors_one_slot (s : Jit32) (v : N) :
  length (Regs (jit s)) = Regs_size ->
  (exists s', SetPC v s = Ret s' /\ GetRegister 15 s' = Ret v /\ GetPC s' = Ret v)
  /\ (exists s', SetSP v s = Ret s' /\ GetRegister 13 s' = Ret v /\ GetSP s' = Ret v).
Proof.
  intros Hlen. unfold Regs_size in Hlen. split.
  - destruct (GetRegister_SetRegister 15 v s) as (s' & Hs & Hg); [rewrite Hlen; simpl; lia|].
    exists s'. repeat split; assumption.
  - destruct (GetRegister_SetRegister 13 v s) as (s' & Hs & Hg); [rewrite Hlen; simpl; lia|].
    exists s'. repeat split; assumption.
Qed.

(** ** Halt-reason state machine *)

Lemma halt_reason_ClearHalt (r : HaltReason) (s : Jit32) :
  halt_reason (jit (ClearHalt r s)) = N.ldiff (halt_reason (jit s)) r.
Proof. reflexivity. Qed.

Lemma halt_reason_HaltExecution (r : HaltReason) (s : Jit32) :
  halt_reason (jit (HaltExecution r s)) = N.lor (halt_reason (jit s)) r.
Proof. reflexivity. Qed.

Lemma ldiff_lor_same (m r : N) : N.ldiff (N.lor m r) r = N.ldiff m r.
Proof.
  apply N.bits_inj. intros i.
  rewrite !N.ldiff_spec, N.lor_spec.
  destruct (N.testbit m i), (N.testbit r i); reflexivity.
Qed.

Lemma ldiff_disjoint (m r : N) : N.land m r = 0 -> N.ldiff m r = m.
Proof.
  intros H. apply N.bits_inj. intros i.
  rewrite N.ldiff_spec.
  assert (Hi : N.testbit (N.land m r) i = false) by (rewrite H; apply N.bits_0).
  rewrite N.land_spec in Hi.
  destruct (N.testbit m i), (N.testbit r i); try reflexivity; discriminate.
Qed.

Lemma ldiff_lor_disjoint (m r r2 : N) :
  N.land r r2 = 0 -> N.ldiff (N.lor (N.lor m r) r2) r = N.lor (N.ldiff m r) r2.
Proof.
  intros H. apply N.bits_inj. intros i.
  rewrite !N.ldiff_spec, !N.lor_spec, N.ldiff_spec.
  assert (Hi : N.testbit (N.land r r2) i = false) by (rewrite H; apply N.bits_0).
  rewrite N.land_spec in Hi.
  destruct (N.testbit m i), (N.testbit r i), (N.testbit r2 i); try reflexivity; discriminate.
Qed.

(** C7, as amended.  [ClearHalt r] removes exactly the bits of [r] and
    leaves every other pending bit; after [HaltExecution r] it yields
    the bitmask with the bits of [r] cleared, which is the earlier value
    whenever [r] was not already pending; and when a reason [r2] that
    shares no bit with [r] is requested in between, [r2] stays pending:
    the result is what requesting [r2] alone gives. *)
Theorem ClearHalt_HaltExecution (s : Jit32) (r r2 : HaltReason) :
  N.land r r2 = 0 ->
  (forall i, N.testbit (halt_reason (jit (ClearHalt r s))) i
             = N.testbit (halt_reason (jit s)) i && negb (N.testbit r i))
  /\ halt_reason (jit (ClearHalt r (HaltExecution r s))) = N.ldiff (halt_reason (jit s)) r
  /\ ClearHalt r (HaltExecution r2 (HaltExecution r s)) = HaltExecution r2 (ClearHalt r s)
  /\ (N.land (halt_reason (jit s)) r = 0 ->
      ClearHalt r (HaltExecution r s) = s
      /\ ClearHalt r (HaltExecution r2 (HaltExecution r s)) = HaltExecution r2 s).
Proof.
  intros Hdisj.
  destruct s as [st c [rg e cp fp h] l d].
  unfold ClearHalt, HaltExecution, jit_ClearHalt, jit_HaltExecution, ToDynarmicHaltReason,
    set_jit, set_halt_reason. cbn [jit halt_reason Regs ExtRegs Cpsr Fpscr state coreId lastSwi diagnostics].
  split; [|split; [|split]].
  - intros i. apply N.ldiff_spec.
  - apply ldiff_lor_same.
  - now rewrite ldiff_lor_disjoint by exact Hdisj.
  - intros Hfree. split.
    + now rewrite ldiff_lor_same, ldiff_disjoint by exact Hfree.
    + now rewrite ldiff_lor_disjoint, ldiff_disjoint by assumption.
Qed.

Lemma ClearHalt_HaltExecution_witness :
  N.land 1 2 = 0 /\
  N.land (halt_reason (jit scenario_Jit32)) 1 = 0 /\
  ClearHalt 1 (HaltExecution 1 scenario_Jit32) = scenario_Jit32 /\
  ClearHalt 1 (HaltExecution 2 (HaltExecution 1 scenario_Jit32))
  = HaltExecution 2 scenario_Jit32.
Proof.
  split; [reflexivity|]. split; [reflexivity|].
  exact (proj2 (proj2 (proj2 (ClearHalt_HaltExecution scenario_Jit32 1 2 eq_refl))) eq_refl).
Defined.

(** C7 as stated fails.  From an empty bitmask, requesting reason [1],
    then the distinct reason [2], then clearing [1] leaves [2] pending,
    not the pre-request value; and when [1] is already pending,
    requesting and clearing it leaves the bitmask empty. *)
Lemma ClearHalt_HaltExecution_counterexample :
  halt_reason (jit scenario_Jit32) = 0
  /\ halt_reason (jit (ClearHalt 1 (HaltExecution 2 (HaltExecution 1 scenario_Jit32)))) = 2
  /\ halt_reason (jit (ClearHalt 1 (HaltExecution 2 (HaltExecution 1 scenario_Jit32))))
     <> halt_reason (jit scenario_Jit32)
  /\ halt_reason (jit (HaltExecution 1 scenario_Jit32)) = 1
  /\ halt_reason (jit (ClearHalt 1 (HaltExecution 1 (HaltExecution 1 scenario_Jit32))))
     <> halt_reason (jit (HaltExecution 1 scenario_Jit32)).
Proof. repeat split; try reflexivity; vm_compute; discriminate. Qed.

(** ** Marshalling loops *)

Lemma copy_body_Ret (f : N -> N) (src dst : list N) (i x : N) :
  src !! N.to_nat i = Some x ->
  (N.to_nat i < length dst)%nat ->
  copy_body f src i dst = Ret (<[N.to_nat i := f x]> dst).
Proof.
  intros Hx Hlt. unfold copy_body.
  rewrite (subscript_Some _ _ _ Hx), bind_Ret. now apply subscript_set_Ret.
Qed.

Lemma for_loop_copy (f : N -> N) (src : list N) (count : nat) :
  forall (i : N) (dst : list N),
  (N.to_nat i + count <= length src)%nat ->
  (N.to_nat i + count <= length dst)%nat ->
  for_loop (copy_body f src) i count dst
  = Ret (take (N.to_nat i) dst
         ++ (f <$> take count (drop (N.to_nat i) src))
         ++ drop (N.to_nat i + count) dst).
Proof.
  induction count as [|count IH]; intros i dst Hsrc Hdst.
  - rewrite Nat.add_0_r. change (Ret dst = Ret (take (N.to_nat i) dst ++ drop (N.to_nat i) dst)).
    now rewrite take_drop.
  - cbn [for_loop].
    destruct (lookup_lt_is_Some_2 src (N.to_nat i)) as [x Hx]; [lia|].
    rewrite (copy_body_Ret _ _ _ _ _ Hx) by lia. rewrite bind_Ret.
    rewrite IH by (rewrite ?length_insert, N2Nat.inj_succ; lia).
    rewrite N2Nat.inj_succ. f_equal.
    rewrite (take_S_r _ _ (f x)) by (apply list_lookup_insert_eq; lia).
    rewrite take_insert_ge by lia.
    rewrite drop_insert_lt by lia.
    rewrite (drop_S _ _ _ Hx). cbn [take fmap list_fmap].
    rewrite <- app_assoc. cbn [app].
    replace (S (N.to_nat i) + count)%nat with (N.to_nat i + S count)%nat by lia.
    reflexivity.
Qed.

Lemma widen_regs_copy (jitRegs : list N) (count : nat) :
  forall (i : N) (ctx : SvcContext),
  for_loop (fun i ctx =>
              x ← subscript jitRegs i;
              r ← subscript_set (regs ctx) i (static_cast_u64 x);
              Ret (mkSvcContext r)) i count ctx
  = (r ← for_loop (copy_body static_cast_u64 jitRegs) i count (regs ctx);
     Ret (mkSvcContext r)).
Proof.
  induction count as [|count IH]; intros i [r]; [reflexivity|].
  cbn [for_loop regs]. unfold copy_body.
  destruct (subscript jitRegs i) as [x| |]; try reflexivity.
  rewrite !bind_Ret.
  destruct (subscript_set r i (static_cast_u64 x)) as [r'| |]; try reflexivity.
  rewrite !bind_Ret. apply (IH (N.succ i) (mkSvcContext r')).
Qed.

Lemma widen_regs_spec (jitRegs : list N) (count : nat) (ctx : SvcContext) :
  (count <= length jitRegs)%nat ->
  (count <= length (regs ctx))%nat ->
  widen_regs jitRegs count ctx
  = Ret (mkSvcContext ((static_cast_u64 <$> take count jitRegs) ++ drop count (regs ctx))).
Proof.
  intros Hsrc Hdst. unfold widen_regs.
  rewrite widen_regs_copy, for_loop_copy by (simpl; lia). reflexivity.
Qed.

Lemma narrow_regs_spec (svcCtx : SvcContext) (count : nat) (jitRegs : list N) :
  (count <= length (regs svcCtx))%nat ->
  (count <= length jitRegs)%nat ->
  narrow_regs svcCtx count jitRegs
  = Ret ((static_cast_u32 <$> take count (regs svcCtx)) ++ drop count jitRegs).
Proof.
  intros Hsrc Hdst. unfold narrow_regs.
  change (for_loop (copy_body static_cast_u32 (regs svcCtx)) 0 count jitRegs = 
          Ret ((static_cast_u32 <$> take count (regs svcCtx)) ++ drop count jitRegs)).
  rewrite for_loop_copy by (simpl; lia). reflexivity.
Qed.

Lemma static_cast_u64_u32 (x : N) : is_u32 x -> static_cast_u64 x = x.
Proof.
  unfold is_u32, static_cast_u64. intros H. apply N.mod_small.
  eapply N.lt_trans; [exact H|]. reflexivity.
Qed.

Lemma static_cast_u32_u64 (x : N) : is_u32 x -> static_cast_u32 (static_cast_u64 x) = x.
Proof.
  intros H. rewrite static_cast_u64_u32 by exact H. now apply N.mod_small.
Qed.

Lemma widen_Regs_id (r : list N) : Forall is_u32 r -> static_cast_u64 <$> r = r.
Proof.
  induction 1 as [|x r Hx _ IH]; [reflexivity|].
  cbn [fmap list_fmap]. f_equal; [now apply static_cast_u64_u32 | exact IH].
Qed.

Lemma narrow_Regs_id (r : list N) : Forall is_u32 r -> static_cast_u32 <$> r = r.
Proof.
  induction 1 as [|x r Hx _ IH]; [reflexivity|].
  cbn [fmap list_fmap]. f_equal; [now apply N.mod_small | exact IH].
Qed.

Lemma is_u32_shiftr (x : N) : is_u32 x -> N.shiftr x 32 = 0.
Proof.
  unfold is_u32. intros H. rewrite N.shiftr_div_pow2. now apply N.div_small.
Qed.

Lemma MakeSvcContext_spec (s : Jit32) :
  length (Regs (jit s)) = Regs_size ->
  MakeSvcContext s = Ret (mkSvcContext (static_cast_u64 <$> Regs (jit s))).
Proof.
  intros Hlen. unfold MakeSvcContext.
  rewrite widen_regs_spec
    by (cbn [SvcContext_init regs]; rewrite ?length_replicate, ?Hlen; reflexivity).
  cbn [SvcContext_init regs]. rewrite length_replicate.
  rewrite drop_ge by (rewrite length_replicate; reflexivity).
  rewrite take_ge by (rewrite Hlen; reflexivity).
  now rewrite app_nil_r.
Qed.

Lemma ApplySvcContext_spec (svcCtx : SvcContext) (s : Jit32) :
  (length (regs svcCtx) <= length (Regs (jit s)))%nat ->
  ApplySvcContext svcCtx s
  = Ret (set_jit (set_Regs ((static_cast_u32 <$> regs svcCtx)
                            ++ drop (length (regs svcCtx)) (Regs (jit s))) (jit s)) s).
Proof.
  intros Hlen. unfold ApplySvcContext.
  rewrite narrow_regs_spec by lia. rewrite bind_Ret, firstn_all. reflexivity.
Qed.

Lemma ApplySvcContext_full (svcCtx : SvcContext) (s : Jit32) :
  length (regs svcCtx) = length (Regs (jit s)) ->
  ApplySvcContext svcCtx s
  = Ret (set_jit (set_Regs (static_cast_u32 <$> regs svcCtx) (jit s)) s).
Proof.
  intros Hlen. rewrite ApplySvcContext_spec by lia.
  rewrite drop_ge by lia. now rewrite app_nil_r.
Qed.

(** The two loops invert each other whatever the number of slots, as
    long as the window is no longer than the register file: slots beyond
    the window are never touched. *)
Lemma narrow_widen_regs (r : list N) (n : nat) :
  Forall is_u32 r ->
  (n <= length r)%nat ->
  exists ctx, widen_regs r n (mkSvcContext (replicate n 0)) = Ret ctx
              /\ length (regs ctx) = n
              /\ narrow_regs ctx n r = Ret r.
Proof.
  intros Hu32 Hn.
  assert (Hw : widen_regs r n (mkSvcContext (replicate n 0))
               = Ret (mkSvcContext (static_cast_u64 <$> take n r))).
  { rewrite widen_regs_spec by (cbn [regs]; rewrite ?length_replicate; lia).
    cbn [regs]. rewrite drop_ge by (rewrite length_replicate; lia).
    now rewrite app_nil_r. }
  eexists. split; [exact Hw|].
  assert (Hlen : length (static_cast_u64 <$> take n r) = n)
    by (rewrite length_fmap, length_take; lia).
  split; [exact Hlen|].
  rewrite narrow_regs_spec by (cbn [regs]; lia). cbn [regs].
  rewrite take_ge by lia.
  rewrite widen_Regs_id by (apply Forall_take; exact Hu32).
  rewrite narrow_Regs_id by (apply Forall_take; exact Hu32).
  now rewrite take_drop.
Qed.

(** ** Syscall dispatcher *)

Lemma SvcHandler_empty_entry (SvcTable : list SvcDescriptor) (swi : N) (s : Jit32)
      (svc : SvcDescriptor) :
  SvcTable !! N.to_nat swi = Some svc ->
  function svc = None ->
  SvcHandler SvcTable swi s = Throw (Unimplemented_SVC swi).
Proof.
  intros Hsvc Hnone. unfold SvcHandler.
  rewrite (subscript_Some _ _ _ Hsvc), bind_Ret. now rewrite Hnone.
Qed.

Lemma SvcHandler_outside (SvcTable : list SvcDescriptor) (swi : N) (s : Jit32) :
  (length SvcTable <= N.to_nat swi)%nat ->
  SvcHandler SvcTable swi s = Undefined.
Proof.
  intros Hout. unfold SvcHandler. now rewrite subscript_None by exact Hout.
Qed.

(** With a populated entry the dispatcher is: trace, widen, call, narrow. *)
Lemma SvcHandler_entry (SvcTable : list SvcDescriptor) (swi : N) (s : Jit32)
      (svc : SvcDescriptor) (f : SvcFunction) :
  length (Regs (jit s)) = Regs_size ->
  SvcTable !! N.to_nat swi = Some svc ->
  function svc = Some f ->
  SvcHandler SvcTable swi s
  = (r ← f (state s) (mkSvcContext (static_cast_u64 <$> Regs (jit s)));
     ApplySvcContext (snd r) (set_state (fst r) (emit (TRACE_EVENT "kernel" (name svc)) s))).
Proof.
  intros Hlen Hsvc Hf. unfold SvcHandler.
  rewrite (subscript_Some _ _ _ Hsvc), bind_Ret. rewrite Hf.
  rewrite MakeSvcContext_spec by exact Hlen. reflexivity.
Qed.

(** C2.  What the dispatcher does with a number that has no handler.  A
    number whose entry in the table carries no handler makes it throw
    the unimplemented-syscall exception carrying that number.  A number
    past the end of the table does not: the table is subscripted before
    any test and without a range check, so the dispatch is an
    out-of-bounds read and never reaches the throw. *)
Theorem SvcHandler_unchecked_subscript (SvcTable : list SvcDescriptor) (swi : N) (s : Jit32) :
  (forall svc, SvcTable !! N.to_nat swi = Some svc -> function svc = None ->
     SvcHandler SvcTable swi s = Throw (Unimplemented_SVC swi))
  /\ ((length SvcTable <= N.to_nat swi)%nat ->
      SvcHandler SvcTable swi s = Undefined
      /\ SvcHandler SvcTable swi s <> Throw (Unimplemented_SVC swi)).
Proof.
  split.
  - intros svc Hsvc Hnone. now apply (SvcHandler_empty_entry _ _ _ svc).
  - intros Hout. rewrite SvcHandler_outside by exact Hout. split; [reflexivity | discriminate].
Qed.

(** On a table of [0x80] entries: number [0x7F] has an entry without a
    handler and throws; number [0x100] is past the end. *)
Lemma SvcHandler_unchecked_subscript_witness :
  (length scenario_SvcTable_0x80 <= N.to_nat 0x100)%nat /\
  (SvcHandler scenario_SvcTable_0x80 0x100 scenario_Jit32 = Undefined) /\
  (SvcHandler scenario_SvcTable_0x80 0x100 scenario_Jit32 <> Throw (Unimplemented_SVC 0x100)) /\
  (SvcHandler scenario_SvcTable_0x80 0x7F scenario_Jit32 = Throw (Unimplemented_SVC 0x7F)).
Proof.
  assert (Hout : (length scenario_SvcTable_0x80 <= N.to_nat 0x100)%nat) by (vm_compute; lia).
  split; [exact Hout|].
  pose proof (SvcHandler_unchecked_subscript scenario_SvcTable_0x80 0x100 scenario_Jit32) as H1.
  pose proof (SvcHandler_unchecked_subscript scenario_SvcTable_0x80 0x7F scenario_Jit32) as H2.
  split; [exact (proj1 (proj2 H1 Hout))|]. split; [exact (proj2 (proj2 H1 Hout))|].
  exact (proj1 H2 (mkSvcDescriptor None "") eq_refl eq_refl).
Defined.

(** C3.  With a populated entry the dispatcher builds the window by
    carrying each of the sixteen 32-bit guest registers into a 64-bit
    slot with zero high half, calls the handler on the shared state and
    that window, and, when the handler returns, each of the sixteen
    guest registers reads the low 32 bits of the slot of the same index;
    a handler that throws is propagated. *)
Theorem SvcHandler_marshals (SvcTable : list SvcDescriptor) (swi : N) (s : Jit32)
        (svc : SvcDescriptor) (f : SvcFunction) :
  wf_Regs (Regs (jit s)) ->
  SvcTable !! N.to_nat swi = Some svc ->
  function svc = Some f ->
  exists window,
    MakeSvcContext (emit (TRACE_EVENT "kernel" (name svc)) s) = Ret window
    /\ length (regs window) = Regs_size
    /\ (forall reg x, GetRegister reg s = Ret x ->
          regs window !! N.to_nat reg = Some x /\ N.shiftr x 32 = 0)
    /\ (forall e, f (state s) window = Throw e -> SvcHandler SvcTable swi s = Throw e)
    /\ (forall st' window',
          f (state s) window = Ret (st', window') ->
          length (regs window') = SvcContext_regs_size ->
          exists s', SvcHandler SvcTable swi s = Ret s'
            /\ length (Regs (jit s')) = Regs_size
            /\ (forall reg y, regs window' !! N.to_nat reg = Some y ->
                  GetRegister reg s' = Ret (y mod 2 ^ 32))
            /\ state s' = st').
Proof.
  intros [Hlen Hu32] Hsvc Hf.
  exists (mkSvcContext (static_cast_u64 <$> Regs (jit s))).
  split; [|split; [|split; [|split]]].
  - apply (MakeSvcContext_spec (emit (TRACE_EVENT "kernel" (name svc)) s)). exact Hlen.
  - cbn [regs]. now rewrite length_fmap.
  - intros reg x Hx. cbn [regs]. unfold GetRegister, subscript in Hx.
    destruct (Regs (jit s) !! N.to_nat reg) as [x'|] eqn:Hreg; [|discriminate].
    injection Hx as ->.
    rewrite widen_Regs_id by exact Hu32. split; [exact Hreg|].
    apply is_u32_shiftr. eapply Forall_lookup_1; eassumption.
  - intros e He. rewrite (SvcHandler_entry _ _ _ _ _ Hlen Hsvc Hf). now rewrite He.
  - intros st' window' Hret Hlen'.
    rewrite (SvcHandler_entry _ _ _ _ _ Hlen Hsvc Hf), Hret, bind_Ret. cbn [fst snd].
    rewrite ApplySvcContext_full by (cbn; rewrite Hlen, Hlen'; reflexivity).
    eexists. split; [reflexivity|].
    cbn [set_jit set_Regs set_state emit jit Regs state].
    split; [now rewrite length_fmap|]. split; [|reflexivity].
    intros reg y Hy. unfold GetRegister. cbn [set_jit set_Regs jit Regs].
    apply subscript_Some. rewrite list_lookup_fmap, Hy. reflexivity.
Qed.

(** C10.  Narrowing an untouched window back restores the register
    file: on every register file of sixteen 32-bit values,
    [ApplySvcContext] after [MakeSvcContext] leaves the bridge as it
    was. *)
Theorem ApplySvcContext_MakeSvcContext (s : Jit32) :
  wf_Regs (Regs (jit s)) ->
  exists ctx, MakeSvcContext s = Ret ctx
              /\ ApplySvcContext ctx s = Ret s
              /\ static_cast_u32 <$> regs ctx = Regs (jit s).
Proof.
  intros [Hlen Hu32].
  exists (mkSvcContext (static_cast_u64 <$> Regs (jit s))).
  assert (Hinv : static_cast_u32 <$> (static_cast_u64 <$> Regs (jit s)) = Regs (jit s)).
  { rewrite widen_Regs_id by exact Hu32. now apply narrow_Regs_id. }
  split; [now apply MakeSvcContext_spec|]. split; [|exact Hinv].
  rewrite ApplySvcContext_full by (cbn [regs]; now rewrite length_fmap).
  cbn [regs]. rewrite Hinv. now rewrite set_jit_eta.
Qed.

Lemma wf_scenario_Regs : wf_Regs (Regs (jit scenario_Jit32)).
Proof.
  split; [reflexivity|].
  cbn [scenario_Jit32 jit scenario_Jit Regs scenario_Regs].
  repeat (apply Forall_cons; split; [reflexivity|]). apply Forall_nil_2.
Defined.

Lemma ApplySvcContext_MakeSvcContext_witness :
  wf_Regs (Regs (jit scenario_Jit32)) /\
  exists ctx, MakeSvcContext scenario_Jit32 = Ret ctx
              /\ ApplySvcContext ctx scenario_Jit32 = Ret scenario_Jit32
              /\ static_cast_u32 <$> regs ctx = Regs (jit scenario_Jit32).
Proof.
  split; [exact wf_scenario_Regs|].
  exact (ApplySvcContext_MakeSvcContext scenario_Jit32 wf_scenario_Regs).
Defined.

(** The dispatch of the scenario: the handler adds [r1] to [r0] in the
    window; afterwards [r0] reads 12 and [r15] its earlier value. *)
Lemma SvcHandler_marshals_witness :
  wf_Regs (Regs (jit scenario_Jit32)) /\
  scenario_SvcTable !! N.to_nat 1 = Some (mkSvcDescriptor (Some svc_add_r0_r1) "Add") /\
  exists s', SvcHandler scenario_SvcTable 1 scenario_Jit32 = Ret s'
    /\ length (Regs (jit s')) = Regs_size
    /\ GetRegister 0 s' = Ret 12
    /\ GetRegister 15 s' = Ret 0x08000000.
Proof.
  split; [exact wf_scenario_Regs|]. split; [reflexivity|].
  destruct (SvcHandler_marshals scenario_SvcTable 1 scenario_Jit32
              (mkSvcDescriptor (Some svc_add_r0_r1) "Add") svc_add_r0_r1
              wf_scenario_Regs eq_refl eq_refl) as (window & Hmk & _ & _ & _ & Hret).
  assert (Hw : window = mkSvcContext scenario_Regs).
  { vm_compute in Hmk. injection Hmk as <-. reflexivity. }
  subst window.
  destruct (Hret (state scenario_Jit32) (mkSvcContext (<[0%nat := 12]> scenario_Regs))
              eq_refl eq_refl) as (s' & Hs & Hlen & Hget & _).
  exists s'. split; [exact Hs|]. split; [exact Hlen|]. split.
  - exact (Hget 0 12 eq_refl).
  - exact (Hget 15 0x08000000 eq_refl).
Defined.

Lemma svc_add_r0_r1_window (st : DeviceState) (r : list N) :
  length r = Regs_size -> r !! 0%nat = Some 5 -> r !! 1%nat = Some 7 ->
  svc_add_r0_r1 st (mkSvcContext r) = Ret (st, mkSvcContext (<[0%nat := 12]> r)).
Proof.
  intros Hlen H0 H1. unfold svc_add_r0_r1. cbn [regs].
  rewrite (subscript_Some r 0 5) by exact H0. rewrite bind_Ret.
  rewrite (subscript_Some r 1 7) by exact H1. rewrite bind_Ret.
  rewrite subscript_set_Ret by (rewrite Hlen; vm_compute; lia).
  reflexivity.
Qed.

(** C9.  With [r0 = 5], [r1 = 7] and entry [0x01] of the table bound to
    the handler computing [r0 = r0 + r1], dispatching [0x01] returns,
    the guest's [r0] then reads 12, and every other guest register reads
    what it read before. *)
Theorem SvcHandler_add_scenario (SvcTable : list SvcDescriptor) (svc : SvcDescriptor)
        (s : Jit32) :
  wf_Regs (Regs (jit s)) ->
  Regs (jit s) !! 0%nat = Some 5 ->
  Regs (jit s) !! 1%nat = Some 7 ->
  SvcTable !! N.to_nat 0x01 = Some svc ->
  function svc = Some svc_add_r0_r1 ->
  exists s', SvcHandler SvcTable 0x01 s = Ret s'
             /\ GetRegister 0 s' = Ret 12
             /\ (forall reg, reg <> 0 -> GetRegister reg s' = GetRegister reg s)
             /\ Regs (jit s') = <[0%nat := 12]> (Regs (jit s)).
Proof.
  intros [Hlen Hu32] H0 H1 Hsvc Hf.
  assert (Hu32' : Forall is_u32 (<[0%nat := 12]> (Regs (jit s)))).
  { apply Forall_insert; [exact Hu32 | reflexivity]. }
  eexists. split; [|split; [|split]].
  - rewrite (SvcHandler_entry _ _ _ _ _ Hlen Hsvc Hf).
    rewrite widen_Regs_id by exact Hu32.
    rewrite (svc_add_r0_r1_window _ _ Hlen H0 H1), bind_Ret. cbn [fst snd].
    rewrite ApplySvcContext_full by (cbn; now rewrite length_insert).
    cbn [regs]. rewrite narrow_Regs_id by exact Hu32'. reflexivity.
  - unfold GetRegister. cbn [jit set_jit set_Regs Regs].
    apply subscript_Some. apply list_lookup_insert_eq. rewrite Hlen. vm_compute. lia.
  - intros reg Hreg. unfold GetRegister, subscript. cbn [jit set_jit set_Regs Regs set_state emit].
    rewrite list_lookup_insert_ne by lia. reflexivity.
  - reflexivity.
Qed.

Lemma SvcHandler_add_scenario_witness :
  wf_Regs (Regs (jit scenario_Jit32)) /\
  Regs (jit scenario_Jit32) !! 0%nat = Some 5 /\
  Regs (jit scenario_Jit32) !! 1%nat = Some 7 /\
  exists s', SvcHandler scenario_SvcTable 0x01 scenario_Jit32 = Ret s'
             /\ GetRegister 0 s' = Ret 12
             /\ (forall reg, reg <> 0 -> GetRegister reg s' = GetRegister reg scenario_Jit32)
             /\ Regs (jit s') = <[0%nat := 12]> (Regs (jit scenario_Jit32)).
Proof.
  split; [exact wf_scenario_Regs|]. split; [reflexivity|]. split; [reflexivity|].
  exact (SvcHandler_add_scenario scenario_SvcTable
           (mkSvcDescriptor (Some svc_add_r0_r1) "Add") scenario_Jit32
           wf_scenario_Regs eq_refl eq_refl eq_refl eq_refl).
Defined.

(** ** Execution driver *)

Lemma lastSwi_CallSVC (Svc : HaltReason) (swi : N) (s : Jit32) :
  lastSwi (CallSVC Svc swi s) = swi
  /\ halt_reason (jit (CallSVC Svc swi s)) = N.lor (halt_reason (jit s)) Svc.
Proof. split; reflexivity. Qed.

Lemma ldiff_land_same (m r : N) : N.land (N.ldiff m r) r = 0.
Proof.
  apply N.bits_inj. intros i.
  rewrite N.land_spec, N.ldiff_spec, N.bits_0.
  destruct (N.testbit m i), (N.testbit r i); reflexivity.
Qed.

(** C5.  Whatever reason the engine's run primitive returns, [Run]
    first clears exactly the bits of that reason on the halt bitmask of
    the state the engine left; if the reason is [Svc] it then hands the
    syscall number captured by [CallSVC] to the dispatcher, and for any
    other reason it only writes the diagnostic and returns. *)
Theorem Run_spec (Svc : HaltReason) (SvcTable : list SvcDescriptor)
        (jit_Run : Jit32 -> outcome (N * Jit32)) (s s1 : Jit32) (haltReason : HaltReason) :
  jit_Run s = Ret (haltReason, s1) ->
  let s2 := ClearHalt haltReason s1 in
  halt_reason (jit s2) = N.ldiff (halt_reason (jit s1)) haltReason
  /\ N.land (halt_reason (jit s2)) haltReason = 0
  /\ lastSwi s2 = lastSwi s1
  /\ (haltReason = Svc ->
      Run Svc SvcTable jit_Run s = SvcHandler SvcTable (lastSwi s1) s2)
  /\ (haltReason <> Svc ->
      Run Svc SvcTable jit_Run s = Ret (emit (LOGE_JIT_halted haltReason) s2)
      /\ jit (emit (LOGE_JIT_halted haltReason) s2) = jit s2
      /\ state (emit (LOGE_JIT_halted haltReason) s2) = state s1
      /\ diagnostics (emit (LOGE_JIT_halted haltReason) s2)
         = diagnostics s1 ++ [LOGE_JIT_halted haltReason]).
Proof.
  intros Hrun s2.
  split; [reflexivity|]. split; [apply ldiff_land_same|]. split; [reflexivity|].
  split.
  - intros Heq. unfold Run. rewrite Hrun, bind_Ret. cbn [fst snd].
    now rewrite decide_True by exact Heq.
  - intros Hne. unfold Run. rewrite Hrun, bind_Ret. cbn [fst snd].
    rewrite decide_False by exact Hne. repeat split; reflexivity.
Qed.

(** A run that stops on [svc #1]: the engine calls [CallSVC 1] and
    returns; [Run] clears the reason and dispatches number 1. *)
Lemma Run_spec_witness :
  scenario_jit_Run 0x01000000 scenario_Jit32
  = Ret (0x01000000, CallSVC 0x01000000 1 scenario_Jit32) /\
  Run 0x01000000 scenario_SvcTable (scenario_jit_Run 0x01000000) scenario_Jit32
  = SvcHandler scenario_SvcTable 1
      (ClearHalt 0x01000000 (CallSVC 0x01000000 1 scenario_Jit32)).
Proof.
  split; [reflexivity|].
  exact (proj1 (proj2 (proj2 (proj2
    (Run_spec 0x01000000 scenario_SvcTable (scenario_jit_Run 0x01000000)
       scenario_Jit32 (CallSVC 0x01000000 1 scenario_Jit32) 0x01000000 eq_refl)))) eq_refl).
Defined.

(** * Further properties of the bridge *)

(** ** What a store changes in the window *)

Lemma memcpy_to_cases (mem : list byte) (off : N) (bs : list byte) :
  ((N.to_nat off + length bs <= length mem)%nat
   /\ exists mem', memcpy_to mem off bs = Ret mem'
        /\ length mem' = length mem
        /\ forall k : nat,
             mem' !! k = if decide (N.to_nat off <= k < N.to_nat off + length bs)%nat
                         then bs !! (k - N.to_nat off)%nat else mem !! k)
  \/ ((length mem < N.to_nat off + length bs)%nat /\ memcpy_to mem off bs = Undefined).
Proof.
  unfold memcpy_to. case_decide as Hin; [left | right; split; [lia | reflexivity]].
  split; [exact Hin|]. eexists. split; [reflexivity|]. split.
  - rewrite !length_app, length_take, length_drop. lia.
  - intros k. case_decide as Hk.
    + rewrite lookup_app_r by (rewrite length_take; lia).
      rewrite length_take, Nat.min_l by lia.
      rewrite lookup_app_l by lia. reflexivity.
    + destruct (decide (k < N.to_nat off)%nat) as [Hlt|Hge].
      * rewrite lookup_app_l by (rewrite length_take; lia).
        now rewrite lookup_take_lt by exact Hlt.
      * rewrite lookup_app_r by (rewrite length_take; lia).
        rewrite length_take, Nat.min_l by lia.
        rewrite lookup_app_r by lia.
        rewrite lookup_drop. f_equal. lia.
Qed.

Lemma memcpy_from_ext (mem mem' : list byte) (off : N) (n : nat) :
  length mem' = length mem ->
  (forall k : nat, (N.to_nat off <= k < N.to_nat off + n)%nat -> mem' !! k = mem !! k) ->
  memcpy_from mem' off n = memcpy_from mem off n.
Proof.
  intros Hlen Hext. unfold memcpy_from. rewrite Hlen.
  case_decide as Hin; [|reflexivity]. f_equal.
  apply list_eq. intros i.
  destruct (decide (i < n)%nat) as [Hi|Hi].
  - rewrite !lookup_take_lt, !lookup_drop by exact Hi. apply Hext. lia.
  - now rewrite !lookup_take_ge by lia.
Qed.

Lemma MemoryWrite_cases (T : Width) (vaddr value : N) (s : Jit32) :
  (in_window T vaddr s
   /\ exists base', MemoryWrite T vaddr value s = Ret (set_state (mkDeviceState base') s)
        /\ memcpy_to (memory_base (state s)) vaddr (to_bytes (N.to_nat (sizeof T)) value)
           = Ret base')
  \/ (~ in_window T vaddr s /\ MemoryWrite T vaddr value s = Undefined).
Proof.
  rewrite MemoryWrite_WriteUnaligned. unfold WriteUnaligned.
  destruct (memcpy_to_cases (memory_base (state s)) vaddr
              (to_bytes (N.to_nat (sizeof T)) value))
    as [(Hin & base' & Hw & _) | (Hout & Hw)]; rewrite length_to_bytes in *.
  - left. split; [unfold in_window; lia|]. exists base'. now rewrite Hw.
  - right. split; [unfold in_window; lia|]. now rewrite Hw.
Qed.

(** X1.  A store of width [T] at [vaddr] that lies inside the window
    returns; it keeps the length of the window, changes no byte outside
    the [sizeof T] bytes from [vaddr], and touches nothing of the bridge
    but the window. *)
Theorem MemoryWrite_frame (T : Width) (vaddr value : N) (s : Jit32) :
  in_window T vaddr s ->
  exists s', MemoryWrite T vaddr value s = Ret s'
    /\ length (memory_base (state s')) = length (memory_base (state s))
    /\ (forall k : nat,
          ~ (N.to_nat vaddr <= k < N.to_nat vaddr + N.to_nat (sizeof T))%nat ->
          memory_base (state s') !! k = memory_base (state s) !! k)
    /\ jit s' = jit s /\ lastSwi s' = lastSwi s /\ coreId s' = coreId s
    /\ diagnostics s' = diagnostics s.
Proof.
  intros Hwin.
  destruct (MemoryWrite_cases T vaddr value s) as [(_ & base' & Hs & Hw) | (Hout & _)];
    [|contradiction].
  exists (set_state (mkDeviceState base') s). split; [exact Hs|].
  cbn [set_state state memory_base jit lastSwi coreId diagnostics].
  destruct (memcpy_to_cases (memory_base (state s)) vaddr
              (to_bytes (N.to_nat (sizeof T)) value))
    as [(_ & m & Hm & Hlen & Hk) | (_ & Hu)]; [|congruence].
  assert (m = base') by congruence. subst m.
  rewrite length_to_bytes in Hk.
  split; [exact Hlen|]. split; [|repeat split].
  intros k Hnot. rewrite Hk. now rewrite decide_False by exact Hnot.
Qed.

Lemma MemoryWrite_frame_witness :
  in_window U32 0x1000 scenario_Jit32 /\
  exists s', MemoryWrite U32 0x1000 0xDEADBEEF scenario_Jit32 = Ret s'
    /\ length (memory_base (state s')) = length (memory_base (state scenario_Jit32))
    /\ (forall k : nat,
          ~ (N.to_nat 0x1000 <= k < N.to_nat 0x1000 + N.to_nat (sizeof U32))%nat ->
          memory_base (state s') !! k = memory_base (state scenario_Jit32) !! k)
    /\ jit s' = jit scenario_Jit32 /\ lastSwi s' = lastSwi scenario_Jit32
    /\ coreId s' = coreId scenario_Jit32
    /\ diagnostics s' = diagnostics scenario_Jit32.
Proof.
  assert (Hwin : in_window U32 0x1000 scenario_Jit32) by (vm_compute; discriminate).
  split; [exact Hwin|].
  exact (MemoryWrite_frame U32 0x1000 0xDEADBEEF scenario_Jit32 Hwin).
Defined.

(** X2.  A load whose bytes do not overlap the bytes of an earlier store
    reads what it read before the store, whatever the two widths and
    alignments. *)
Theorem MemoryRead_disjoint_MemoryWrite (T T' : Width) (vaddr vaddr' value : N)
        (s s' : Jit32) :
  vaddr' + sizeof T' <= vaddr \/ vaddr + sizeof T <= vaddr' ->
  MemoryWrite T vaddr value s = Ret s' ->
  MemoryRead T' vaddr' s' = MemoryRead T' vaddr' s.
Proof.
  intros Hdisj Hw.
  destruct (MemoryWrite_cases T vaddr value s) as [(_ & base' & Hs & Hm) | (_ & Hu)];
    [|congruence].
  assert (s' = set_state (mkDeviceState base') s) by congruence. subst s'.
  rewrite !MemoryRead_ReadUnaligned. unfold ReadUnaligned.
  cbn [set_state state memory_base].
  destruct (memcpy_to_cases (memory_base (state s)) vaddr
              (to_bytes (N.to_nat (sizeof T)) value))
    as [(_ & m & Hm' & Hlen & Hk) | (_ & Hu)]; [|congruence].
  assert (m = base') by congruence. subst m. rewrite length_to_bytes in Hk.
  rewrite (memcpy_from_ext (memory_base (state s)) base' vaddr' (N.to_nat (sizeof T')));
    [reflexivity|exact Hlen|].
  intros k Hrange. rewrite Hk. rewrite decide_False by lia. reflexivity.
Qed.

Lemma MemoryRead_disjoint_MemoryWrite_witness :
  (0x1001 + sizeof U16 <= 0x1008 \/ 0x1008 + sizeof U64 <= 0x1001) /\
  exists s', MemoryWrite U64 0x1008 0x1122334455667788 scenario_Jit32 = Ret s'
             /\ MemoryRead U16 0x1001 s' = MemoryRead U16 0x1001 scenario_Jit32.
Proof.
  assert (Hdisj : 0x1001 + sizeof U16 <= 0x1008 \/ 0x1008 + sizeof U64 <= 0x1001)
    by (left; vm_compute; discriminate).
  split; [exact Hdisj|].
  destruct (MemoryWrite U64 0x1008 0x1122334455667788 scenario_Jit32) as [s'| |] eqn:Hw;
    [|vm_compute in Hw; discriminate Hw..].
  exists s'. split; [reflexivity|].
  exact (MemoryRead_disjoint_MemoryWrite U64 U16 0x1008 0x1001 0x1122334455667788
           scenario_Jit32 s' Hdisj Hw).
Defined.

(** ** Byte order and range of the values moved *)

Lemma to_bytes_lookup (n : nat) : forall (v : N) (i : nat),
  (i < n)%nat -> to_bytes n v !! i = Some (byte_of_N (v / 2 ^ (8 * N.of_nat i))).
Proof.
  induction n as [|n IH]; intros v i Hi; [lia|].
  destruct i as [|i]; cbn [to_bytes lookup list_lookup].
  - change (8 * N.of_nat 0) with 0. now rewrite N.pow_0_r, N.div_1_r.
  - change ((byte_of_N v :: to_bytes n (v / u8_max)) !! S i) with (to_bytes n (v / u8_max) !! i).
    rewrite IH by lia. do 2 f_equal.
    rewrite N.Div0.div_div. f_equal.
    replace (8 * N.of_nat (S i)) with (8 + 8 * N.of_nat i) by lia.
    now rewrite N.pow_add_r.
Qed.

Lemma of_bytes_bound (bs : list byte) : of_bytes bs < 2 ^ (8 * N.of_nat (length bs)).
Proof.
  induction bs as [|b bs IH]; [reflexivity|].
  cbn [of_bytes length].
  replace (8 * N.of_nat (S (length bs))) with (8 + 8 * N.of_nat (length bs)) by lia.
  rewrite N.pow_add_r. change (2 ^ 8) with u8_max.
  pose proof (Byte.to_N_bounded b) as Hb. rewrite u8_max_eq in *. nia.
Qed.

Lemma memcpy_from_length (mem bs : list byte) (off : N) (n : nat) :
  memcpy_from mem off n = Ret bs -> length bs = n.
Proof.
  unfold memcpy_from. case_decide as Hin; [|discriminate].
  intros [= <-]. rewrite length_take, length_drop. lia.
Qed.

Lemma ReadUnaligned_U8 (mem : list byte) (off : N) (b : byte) :
  mem !! N.to_nat off = Some b -> ReadUnaligned U8 mem off = Ret (Byte.to_N b).
Proof.
  intros Hb. unfold ReadUnaligned, memcpy_from. cbn [sizeof].
  pose proof (lookup_lt_Some _ _ _ Hb) as Hlt.
  rewrite decide_True by (change (N.to_nat 1) with 1%nat; lia).
  rewrite bind_Ret. change (N.to_nat 1) with 1%nat.
  rewrite (drop_S _ _ _ Hb). cbn [take of_bytes].
  now rewrite N.mul_0_r, N.add_0_r.
Qed.

(** X3.  The window is little-endian: after a store of width [T] at
    [vaddr], the byte at [vaddr + i], for [i] below [sizeof T], reads as
    bits [8 i .. 8 i + 7] of the value stored. *)
Theorem MemoryRead8_MemoryWrite (T : Width) (vaddr value i : N) (s s' : Jit32) :
  i < sizeof T ->
  MemoryWrite T vaddr value s = Ret s' ->
  MemoryRead8 (vaddr + i) s' = Ret ((value / 2 ^ (8 * i)) mod 2 ^ 8).
Proof.
  intros Hi Hw.
  destruct (MemoryWrite_cases T vaddr value s) as [(_ & base' & Hs & Hm) | (_ & Hu)];
    [|congruence].
  assert (s' = set_state (mkDeviceState base') s) by congruence. subst s'.
  unfold MemoryRead8. rewrite MemoryRead_ReadUnaligned. cbn [set_state state memory_base].
  destruct (memcpy_to_cases (memory_base (state s)) vaddr
              (to_bytes (N.to_nat (sizeof T)) value))
    as [(_ & m & Hm' & _ & Hk) | (_ & Hu)]; [|congruence].
  assert (m = base') by congruence. subst m. rewrite length_to_bytes in Hk.
  rewrite (ReadUnaligned_U8 _ _ (byte_of_N (value / 2 ^ (8 * i)))).
  - now rewrite byte_of_N_to_N.
  - rewrite Hk, decide_True by lia.
    replace (N.to_nat (vaddr + i) - N.to_nat vaddr)%nat with (N.to_nat i) by lia.
    rewrite to_bytes_lookup by lia. now rewrite N2Nat.id.
Qed.

Lemma MemoryRead8_MemoryWrite_witness :
  2 < sizeof U32 /\
  exists s', MemoryWrite U32 0x1001 0xDEADBEEF scenario_Jit32 = Ret s'
             /\ MemoryRead8 (0x1001 + 2) s' = Ret ((0xDEADBEEF / 2 ^ (8 * 2)) mod 2 ^ 8)
             /\ (0xDEADBEEF / 2 ^ (8 * 2)) mod 2 ^ 8 = 0xAD.
Proof.
  assert (Hi : 2 < sizeof U32) by reflexivity.
  split; [exact Hi|].
  destruct (MemoryWrite U32 0x1001 0xDEADBEEF scenario_Jit32) as [s'| |] eqn:Hw;
    [|vm_compute in Hw; discriminate Hw..].
  exists s'. split; [reflexivity|]. split; [|reflexivity].
  exact (MemoryRead8_MemoryWrite U32 0x1001 0xDEADBEEF 2 scenario_Jit32 s' Hi Hw).
Defined.

(** X4.  Whatever the window holds, a load of width [T] that returns
    yields a value that fits the width. *)
Theorem MemoryRead_range (T : Width) (vaddr v : N) (s : Jit32) :
  MemoryRead T vaddr s = Ret v -> v < T_modulus T.
Proof.
  rewrite MemoryRead_ReadUnaligned. unfold ReadUnaligned.
  destruct (memcpy_from (memory_base (state s)) vaddr (N.to_nat (sizeof T)))
    as [bs| |] eqn:Hbs; try discriminate.
  rewrite bind_Ret. intros [= <-].
  rewrite T_modulus_eq, <- (memcpy_from_length _ _ _ _ Hbs). apply of_bytes_bound.
Qed.

Lemma MemoryRead_range_witness :
  exists v, MemoryRead U16 0x1FFE scenario_Jit32 = Ret v /\ v < T_modulus U16.
Proof.
  destruct (MemoryRead U16 0x1FFE scenario_Jit32) as [v| |] eqn:Hr;
    [|vm_compute in Hr; discriminate Hr..].
  exists v. split; [reflexivity|].
  exact (MemoryRead_range U16 0x1FFE v scenario_Jit32 Hr).
Defined.

(** X5.  The accessors check no bounds and never throw: a load or a
    store returns exactly when all [sizeof T] bytes from [vaddr] lie
    inside the window, and is undefined exactly when they do not. *)
Theorem Memory_access_defined_iff_in_window (T : Width) (vaddr value : N) (s : Jit32) :
  (in_window T vaddr s <-> exists v, MemoryRead T vaddr s = Ret v)
  /\ (~ in_window T vaddr s <-> MemoryRead T vaddr s = Undefined)
  /\ (in_window T vaddr s <-> exists s', MemoryWrite T vaddr value s = Ret s')
  /\ (~ in_window T vaddr s <-> MemoryWrite T vaddr value s = Undefined).
Proof.
  assert (Hr : (in_window T vaddr s /\ exists v, MemoryRead T vaddr s = Ret v)
               \/ (~ in_window T vaddr s /\ MemoryRead T vaddr s = Undefined)).
  { rewrite MemoryRead_ReadUnaligned. unfold ReadUnaligned, memcpy_from, in_window.
    case_decide as Hin; [left | right]; (split; [lia|]); [eexists|]; reflexivity. }
  pose proof (MemoryWrite_cases T vaddr value s) as Hw.
  split; [|split; [|split]].
  - split; [intros Hin | intros [v Hv]].
    + destruct Hr as [[_ Hex] | [Hout _]]; [exact Hex | contradiction].
    + destruct Hr as [[Hin _] | [_ Hu]]; [exact Hin | congruence].
  - split; [intros Hout | intros Hu].
    + destruct Hr as [[Hin _] | [_ Hu]]; [contradiction | exact Hu].
    + destruct Hr as [[_ [v Hv]] | [Hout _]]; [congruence | exact Hout].
  - split; [intros Hin | intros [s' Hs']].
    + destruct Hw as [(_ & base' & Hs & _) | [Hout _]]; [eauto | contradiction].
    + destruct Hw as [[Hin _] | [_ Hu]]; [exact Hin | congruence].
  - split; [intros Hout | intros Hu].
    + destruct Hw as [[Hin _] | [_ Hu]]; [contradiction | exact Hu].
    + destruct Hw as [(_ & base' & Hs & _) | [Hout _]]; [congruence | exact Hout].
Qed.

(** X6.  The [constexpr] arithmetic of the accessors is the natural
    alignment test: [bits] is the base-2 logarithm of the size, [mask]
    is the size minus one, and [vaddr & mask == 0] holds exactly when
    [vaddr] is a multiple of the size; the index [vaddr >> bits] is then
    the quotient. *)
Theorem aligned_iff_multiple (T : Width) (vaddr : N) :
  bits T = N.log2 (sizeof T)
  /\ mask T = sizeof T - 1
  /\ (N.land vaddr (mask T) = 0 <-> vaddr mod sizeof T = 0)
  /\ N.shiftr vaddr (bits T) = vaddr / sizeof T.
Proof.
  destruct (bits_mask_values T) as [Hm Hs].
  split; [now destruct T|]. split; [now destruct T|]. split.
  - rewrite Hm, Hs, N.land_ones. reflexivity.
  - rewrite Hs, N.shiftr_div_pow2. reflexivity.
Qed.

(** ** How stores compose *)

Lemma memcpy_to_overwrite (mem : list byte) (off : N) (bs1 bs2 : list byte) :
  length bs1 = length bs2 ->
  (m ← memcpy_to mem off bs1; memcpy_to m off bs2) = memcpy_to mem off bs2.
Proof.
  intros Hlen.
  destruct (memcpy_to_cases mem off bs1) as [(Hin1 & m1 & Hm1 & Hl1 & Hk1) | (Hout1 & Hu1)].
  - rewrite Hm1, bind_Ret.
    destruct (memcpy_to_cases m1 off bs2) as [(_ & m2 & Hm2 & _ & Hk2) | (Hout2 & _)]; [|lia].
    destruct (memcpy_to_cases mem off bs2) as [(_ & m & Hm & _ & Hk) | (Hout & _)]; [|lia].
    rewrite Hm2, Hm. f_equal. apply list_eq. intros k.
    rewrite Hk2, Hk, Hk1. case_decide as Hr; [reflexivity|].
    now rewrite decide_False by lia.
  - rewrite Hu1.
    destruct (memcpy_to_cases mem off bs2) as [(Hin & _) | (_ & Hu)]; [lia|].
    now rewrite Hu.
Qed.

Lemma memcpy_to_comm (mem : list byte) (off1 off2 : N) (bs1 bs2 : list byte) :
  (N.to_nat off1 + length bs1 <= N.to_nat off2
   \/ N.to_nat off2 + length bs2 <= N.to_nat off1)%nat ->
  (m ← memcpy_to mem off1 bs1; memcpy_to m off2 bs2)
  = (m ← memcpy_to mem off2 bs2; memcpy_to m off1 bs1).
Proof.
  intros Hdisj.
  destruct (memcpy_to_cases mem off1 bs1) as [(Hin1 & m1 & Hm1 & Hl1 & Hk1) | (Hout1 & Hu1)];
  destruct (memcpy_to_cases mem off2 bs2) as [(Hin2 & m2 & Hm2 & Hl2 & Hk2) | (Hout2 & Hu2)].
  - rewrite Hm1, Hm2, !bind_Ret.
    destruct (memcpy_to_cases m1 off2 bs2) as [(_ & m12 & Hm12 & _ & Hk12) | (Ho & _)]; [|lia].
    destruct (memcpy_to_cases m2 off1 bs1) as [(_ & m21 & Hm21 & _ & Hk21) | (Ho & _)]; [|lia].
    rewrite Hm12, Hm21. f_equal. apply list_eq. intros k.
    rewrite Hk12, Hk21, Hk1, Hk2.
    repeat case_decide; try reflexivity; lia.
  - rewrite Hm1, Hu2, bind_Ret.
    destruct (memcpy_to_cases m1 off2 bs2) as [(Hi & _) | (_ & Hu)]; [lia | exact Hu].
  - rewrite Hu1, Hm2, bind_Ret.
    destruct (memcpy_to_cases m2 off1 bs1) as [(Hi & _) | (_ & Hu)]; [lia | now rewrite Hu].
  - now rewrite Hu1, Hu2.
Qed.

Lemma MemoryWrite_then (T T' : Width) (vaddr vaddr' value value' : N) (s : Jit32) :
  (s1 ← MemoryWrite T vaddr value s; MemoryWrite T' vaddr' value' s1)
  = (base ← (m ← memcpy_to (memory_base (state s)) vaddr
                    (to_bytes (N.to_nat (sizeof T)) value);
             memcpy_to m vaddr' (to_bytes (N.to_nat (sizeof T')) value'));
     Ret (set_state (mkDeviceState base) s)).
Proof.
  rewrite (MemoryWrite_WriteUnaligned T). unfold WriteUnaligned.
  destruct (memcpy_to (memory_base (state s)) vaddr (to_bytes (N.to_nat (sizeof T)) value))
    as [m| |]; try reflexivity.
  rewrite !bind_Ret, MemoryWrite_WriteUnaligned. unfold WriteUnaligned.
  cbn [set_state state memory_base].
  destruct (memcpy_to m vaddr' (to_bytes (N.to_nat (sizeof T')) value')) as [m'| |];
    reflexivity.
Qed.

(** X7.  The last store wins: two stores of the same width at the same
    address leave the bridge as the second store alone does, inside the
    window or not. *)
Theorem MemoryWrite_overwrite (T : Width) (vaddr value1 value2 : N) (s : Jit32) :
  (s1 ← MemoryWrite T vaddr value1 s; MemoryWrite T vaddr value2 s1)
  = MemoryWrite T vaddr value2 s.
Proof.
  rewrite MemoryWrite_then, memcpy_to_overwrite by (now rewrite !length_to_bytes).
  now rewrite MemoryWrite_WriteUnaligned.
Qed.

(** X8.  Stores to byte ranges that do not overlap commute, whatever
    their widths and alignments, and also when one of them falls outside
    the window. *)
Theorem MemoryWrite_comm (T T' : Width) (vaddr vaddr' value value' : N) (s : Jit32) :
  vaddr + sizeof T <= vaddr' \/ vaddr' + sizeof T' <= vaddr ->
  (s1 ← MemoryWrite T vaddr value s; MemoryWrite T' vaddr' value' s1)
  = (s1 ← MemoryWrite T' vaddr' value' s; MemoryWrite T vaddr value s1).
Proof.
  intros Hdisj. rewrite !MemoryWrite_then.
  rewrite memcpy_to_comm by (rewrite !length_to_bytes; lia). reflexivity.
Qed.

Lemma MemoryWrite_comm_witness :
  (0x1001 + sizeof U16 <= 0x1003 \/ 0x1003 + sizeof U32 <= 0x1001) /\
  (s1 ← MemoryWrite U16 0x1001 0xABCD scenario_Jit32; MemoryWrite U32 0x1003 0xDEADBEEF s1)
  = (s1 ← MemoryWrite U32 0x1003 0xDEADBEEF scenario_Jit32; MemoryWrite U16 0x1001 0xABCD s1).
Proof.
  assert (Hdisj : 0x1001 + sizeof U16 <= 0x1003 \/ 0x1003 + sizeof U32 <= 0x1001)
    by (left; vm_compute; discriminate).
  split; [exact Hdisj|].
  exact (MemoryWrite_comm U16 U32 0x1001 0x1003 0xABCD 0xDEADBEEF scenario_Jit32 Hdisj).
Defined.

(** ** Indexed register access *)

Lemma subscript_cases {A : Type} (a : list A) (i : N) :
  ((N.to_nat i < length a)%nat /\ exists x, a !! N.to_nat i = Some x /\ subscript a i = Ret x)
  \/ ((length a <= N.to_nat i)%nat /\ subscript a i = Undefined).
Proof.
  destruct (decide (N.to_nat i < length a)%nat) as [Hlt|Hge].
  - left. split; [exact Hlt|].
    destruct (lookup_lt_is_Some_2 a _ Hlt) as [x Hx].
    exists x. split; [exact Hx | now apply subscript_Some].
  - right. split; [lia | apply subscript_None; lia].
Qed.

(** X9.  Storing into a register of the file and reading any register
    afterwards: the register stored reads the new value, every other
    index reads what it read before, and nothing but the register file
    changes. *)
Theorem GetRegister_after_SetRegister (reg reg' value : N) (s : Jit32) :
  length (Regs (jit s)) = Regs_size ->
  reg < 16 ->
  exists s', SetRegister reg value s = Ret s'
    /\ GetRegister reg s' = Ret value
    /\ (reg' <> reg -> GetRegister reg' s' = GetRegister reg' s)
    /\ length (Regs (jit s')) = Regs_size
    /\ ExtRegs (jit s') = ExtRegs (jit s) /\ Cpsr (jit s') = Cpsr (jit s)
    /\ Fpscr (jit s') = Fpscr (jit s) /\ halt_reason (jit s') = halt_reason (jit s)
    /\ state s' = state s /\ lastSwi s' = lastSwi s.
Proof.
  intros Hlen Hreg. unfold Regs_size in Hlen.
  assert (Hlt : (N.to_nat reg < length (Regs (jit s)))%nat) by lia.
  unfold SetRegister. rewrite subscript_set_Ret by exact Hlt. rewrite bind_Ret.
  eexists. split; [reflexivity|].
  unfold GetRegister. cbn [set_jit set_Regs jit Regs ExtRegs Cpsr Fpscr halt_reason state lastSwi].
  split; [apply subscript_Some, list_lookup_insert_eq; exact Hlt|].
  split; [|rewrite length_insert; repeat split; assumption].
  intros Hne. unfold subscript. rewrite list_lookup_insert_ne by lia. reflexivity.
Qed.

Lemma GetRegister_after_SetRegister_witness :
  length (Regs (jit scenario_Jit32)) = Regs_size /\ 3 < 16 /\
  exists s', SetRegister 3 0xCAFE scenario_Jit32 = Ret s'
    /\ GetRegister 3 s' = Ret 0xCAFE
    /\ (4 <> 3 -> GetRegister 4 s' = GetRegister 4 scenario_Jit32).
Proof.
  split; [reflexivity|]. split; [reflexivity|].
  destruct (GetRegister_after_SetRegister 3 4 0xCAFE scenario_Jit32 eq_refl eq_refl)
    as (s' & Hs & Hg & Ho & _).
  exists s'. repeat split; assumption.
Defined.

(** X10.  Indexed access checks no bounds: on the sixteen-slot file
    [GetRegister] and [SetRegister] return exactly for indices below 16
    and are undefined for every other index. *)
Theorem register_access_defined_iff (reg value : N) (s : Jit32) :
  length (Regs (jit s)) = Regs_size ->
  (reg < 16 <-> exists v, GetRegister reg s = Ret v)
  /\ (16 <= reg <-> GetRegister reg s = Undefined)
  /\ (reg < 16 <-> exists s', SetRegister reg value s = Ret s')
  /\ (16 <= reg <-> SetRegister reg value s = Undefined).
Proof.
  intros Hlen. unfold Regs_size in Hlen. unfold GetRegister, SetRegister, subscript_set.
  destruct (subscript_cases (Regs (jit s)) reg) as [(Hlt & x & _ & Hx) | (Hge & Hu)].
  - rewrite Hx, decide_True by exact Hlt. rewrite bind_Ret.
    repeat split; intros; try lia; try discriminate; eauto.
  - rewrite Hu, decide_False by lia.
    repeat split; intros H; try lia; try reflexivity;
      destruct H as [? H]; discriminate H.
Qed.

Lemma register_access_defined_iff_witness :
  length (Regs (jit scenario_Jit32)) = Regs_size /\
  GetRegister 16 scenario_Jit32 = Undefined /\
  exists v, GetRegister 15 scenario_Jit32 = Ret v.
Proof.
  split; [reflexivity|].
  pose proof (register_access_defined_iff 16 0 scenario_Jit32 eq_refl) as H16.
  pose proof (register_access_defined_iff 15 0 scenario_Jit32 eq_refl) as H15.
  split.
  - apply (proj1 (proj1 (proj2 H16))). vm_compute. discriminate.
  - apply (proj1 (proj1 H15)). reflexivity.
Defined.

(** X11.  The program counter and the stack pointer are independent
    slots: [SetPC] is read back by [GetPC] and leaves [GetSP] alone,
    [SetSP] likewise, and the two stores commute. *)
Theorem SetPC_SetSP_independent (pc sp : N) (s : Jit32) :
  length (Regs (jit s)) = Regs_size ->
  (exists s', SetPC pc s = Ret s' /\ GetPC s' = Ret pc /\ GetSP s' = GetSP s)
  /\ (exists s', SetSP sp s = Ret s' /\ GetSP s' = Ret sp /\ GetPC s' = GetPC s)
  /\ (s1 ← SetPC pc s; SetSP sp s1) = (s1 ← SetSP sp s; SetPC pc s1).
Proof.
  intros Hlen. unfold Regs_size in Hlen.
  assert (H15 : (N.to_nat 15 < length (Regs (jit s)))%nat) by (rewrite Hlen; vm_compute; lia).
  assert (H13 : (N.to_nat 13 < length (Regs (jit s)))%nat) by (rewrite Hlen; vm_compute; lia).
  unfold SetPC, SetSP, GetPC, GetSP.
  rewrite !subscript_set_Ret by assumption. rewrite !bind_Ret.
  cbn [set_jit set_Regs jit Regs].
  rewrite !subscript_set_Ret by (rewrite length_insert; assumption).
  rewrite !bind_Ret. cbn [set_jit set_Regs jit Regs ExtRegs Cpsr Fpscr halt_reason state coreId lastSwi diagnostics].
  split; [|split].
  - eexists. split; [reflexivity|]. cbn [set_jit set_Regs jit Regs]. split.
    + apply subscript_Some, list_lookup_insert_eq. exact H15.
    + unfold subscript. now rewrite list_lookup_insert_ne by (vm_compute; lia).
  - eexists. split; [reflexivity|]. cbn [set_jit set_Regs jit Regs]. split.
    + apply subscript_Some, list_lookup_insert_eq. exact H13.
    + unfold subscript. now rewrite list_lookup_insert_ne by (vm_compute; lia).
  - rewrite (list_insert_insert_ne _ (N.to_nat 13) (N.to_nat 15)) by (vm_compute; lia). reflexivity.
Qed.

Lemma SetPC_SetSP_independent_witness :
  length (Regs (jit scenario_Jit32)) = Regs_size /\
  (s1 ← SetPC 0x08000100 scenario_Jit32; SetSP 0x7FFFE000 s1)
  = (s1 ← SetSP 0x7FFFE000 scenario_Jit32; SetPC 0x08000100 s1).
Proof.
  split; [reflexivity|].
  exact (proj2 (proj2 (SetPC_SetSP_independent 0x08000100 0x7FFFE000 scenario_Jit32 eq_refl))).
Defined.

(** X12.  A snapshot taken on one state and restored on any later state
    brings back the four saved fields, whatever the live registers held
    in between, and leaves the halt bitmask, the window and the captured
    syscall number of the later state alone; what the snapshot held
    before the save does not matter. *)
Theorem RestoreContext_SaveContext_later (s s' : Jit32) (context context' : ThreadContext32) :
  let restored := RestoreContext (SaveContext s context) s' in
  Regs (jit restored) = Regs (jit s)
  /\ ExtRegs (jit restored) = ExtRegs (jit s)
  /\ Cpsr (jit restored) = Cpsr (jit s)
  /\ Fpscr (jit restored) = Fpscr (jit s)
  /\ halt_reason (jit restored) = halt_reason (jit s')
  /\ state restored = state s'
  /\ lastSwi restored = lastSwi s'
  /\ diagnostics restored = diagnostics s'
  /\ SaveContext s context = SaveContext s context'
  /\ SaveContext restored context = SaveContext s context.
Proof. cbv zeta. repeat split; reflexivity. Qed.

(** ** What a dispatch changes *)

Lemma Forall_is_u32_narrow (l : list N) : Forall is_u32 (static_cast_u32 <$> l).
Proof.
  apply Forall_fmap, Forall_forall. intros x _.
  unfold compose, is_u32, static_cast_u32. now apply N.mod_upper_bound.
Qed.

(** X13.  A dispatch whose handler returns leaves a register file of
    sixteen 32-bit values, whatever the handler wrote into the 64-bit
    slots; it changes no other part of the engine state (extended
    registers, CPSR, FPSCR, halt bitmask) nor the captured syscall
    number, installs the device state the handler left, and adds exactly
    one trace event carrying the name of the entry. *)
Theorem SvcHandler_frame (SvcTable : list SvcDescriptor) (swi : N) (s : Jit32)
        (svc : SvcDescriptor) (f : SvcFunction) (st' : DeviceState) (window' : SvcContext) :
  length (Regs (jit s)) = Regs_size ->
  SvcTable !! N.to_nat swi = Some svc ->
  function svc = Some f ->
  f (state s) (mkSvcContext (static_cast_u64 <$> Regs (jit s))) = Ret (st', window') ->
  length (regs window') = SvcContext_regs_size ->
  exists s', SvcHandler SvcTable swi s = Ret s'
    /\ wf_Regs (Regs (jit s'))
    /\ ExtRegs (jit s') = ExtRegs (jit s) /\ Cpsr (jit s') = Cpsr (jit s)
    /\ Fpscr (jit s') = Fpscr (jit s) /\ halt_reason (jit s') = halt_reason (jit s)
    /\ lastSwi s' = lastSwi s /\ coreId s' = coreId s
    /\ state s' = st'
    /\ diagnostics s' = diagnostics s ++ [TRACE_EVENT "kernel" (name svc)].
Proof.
  intros Hlen Hsvc Hf Hret Hlen'.
  rewrite (SvcHandler_entry _ _ _ _ _ Hlen Hsvc Hf), Hret, bind_Ret. cbn [fst snd].
  rewrite ApplySvcContext_full by (cbn; rewrite Hlen, Hlen'; reflexivity).
  eexists. split; [reflexivity|].
  cbn [set_jit set_Regs set_state emit jit Regs ExtRegs Cpsr Fpscr halt_reason
       lastSwi coreId state diagnostics].
  split; [|repeat split].
  split; [now rewrite length_fmap | apply Forall_is_u32_narrow].
Qed.

Lemma SvcHandler_frame_witness :
  length (Regs (jit scenario_Jit32)) = Regs_size /\
  exists s', SvcHandler scenario_SvcTable 1 scenario_Jit32 = Ret s'
    /\ wf_Regs (Regs (jit s'))
    /\ halt_reason (jit s') = halt_reason (jit scenario_Jit32)
    /\ diagnostics s' = diagnostics scenario_Jit32 ++ [TRACE_EVENT "kernel" "Add"].
Proof.
  split; [reflexivity|].
  destruct (SvcHandler_frame scenario_SvcTable 1 scenario_Jit32
              (mkSvcDescriptor (Some svc_add_r0_r1) "Add") svc_add_r0_r1
              (state scenario_Jit32)
              (mkSvcContext (<[0%nat := 12]> (static_cast_u64 <$> Regs (jit scenario_Jit32))))
              eq_refl eq_refl eq_refl eq_refl eq_refl)
    as (s' & Hs & Hwf & _ & _ & _ & Hh & _ & _ & _ & Hd).
  exists s'. repeat split; try assumption; apply Hwf.
Defined.

(** X14.  [ApplySvcContext] writes one register per slot of the window
    and no more: with a window no longer than the register file, each
    register under a slot receives the low 32 bits of that slot and
    every register beyond the window keeps its value. *)
Theorem ApplySvcContext_window (svcCtx : SvcContext) (s : Jit32) :
  (length (regs svcCtx) <= length (Regs (jit s)))%nat ->
  exists s', ApplySvcContext svcCtx s = Ret s'
    /\ (forall (i : nat) (y : N), regs svcCtx !! i = Some y ->
          Regs (jit s') !! i = Some (y mod 2 ^ 32))
    /\ (forall i : nat, (length (regs svcCtx) <= i)%nat ->
          Regs (jit s') !! i = Regs (jit s) !! i)
    /\ length (Regs (jit s')) = length (Regs (jit s))
    /\ state s' = state s /\ lastSwi s' = lastSwi s.
Proof.
  intros Hlen. rewrite ApplySvcContext_spec by exact Hlen.
  eexists. split; [reflexivity|].
  cbn [set_jit set_Regs jit Regs state lastSwi].
  split; [|split; [|split; [|split; reflexivity]]].
  - intros i y Hy. pose proof (lookup_lt_Some _ _ _ Hy) as Hi.
    rewrite lookup_app_l by (now rewrite length_fmap).
    rewrite list_lookup_fmap, Hy. reflexivity.
  - intros i Hi. rewrite lookup_app_r by (now rewrite length_fmap).
    rewrite length_fmap, lookup_drop. f_equal. lia.
  - rewrite length_app, length_fmap, length_drop. lia.
Qed.

Lemma ApplySvcContext_window_witness :
  (length (regs scenario_short_window) <= length (Regs (jit scenario_Jit32)))%nat /\
  exists s', ApplySvcContext scenario_short_window scenario_Jit32 = Ret s'
    /\ Regs (jit s') !! 0%nat = Some 0xFFFFFFFF
    /\ Regs (jit s') !! 2%nat = Some 0x20.
Proof.
  assert (Hlen : (length (regs scenario_short_window)
                  <= length (Regs (jit scenario_Jit32)))%nat) by (vm_compute; lia).
  split; [exact Hlen|].
  destruct (ApplySvcContext_window scenario_short_window scenario_Jit32 Hlen)
    as (s' & Hs & Hin & Hout & _).
  exists s'. split; [exact Hs|]. split.
  - exact (Hin 0%nat 0x1FFFFFFFF eq_refl).
  - rewrite (Hout 2%nat) by (vm_compute; lia). reflexivity.
Defined.

Lemma for_loop_copy_overrun (f : N -> N) (src : list N) (count : nat) :
  forall (i : N) (dst : list N),
  (N.to_nat i + count <= length src)%nat ->
  (N.to_nat i <= length dst < N.to_nat i + count)%nat ->
  for_loop (copy_body f src) i count dst = Undefined.
Proof.
  induction count as [|count IH]; intros i dst Hsrc Hdst; [lia|].
  cbn [for_loop].
  destruct (lookup_lt_is_Some_2 src (N.to_nat i)) as [x Hx]; [lia|].
  destruct (decide (N.to_nat i < length dst)%nat) as [Hlt|Hge].
  - rewrite (copy_body_Ret _ _ _ _ _ Hx) by exact Hlt. rewrite bind_Ret.
    apply IH; rewrite ?length_insert, N2Nat.inj_succ; lia.
  - unfold copy_body. rewrite (subscript_Some _ _ _ Hx), bind_Ret.
    unfold subscript_set. now rewrite decide_False by exact Hge.
Qed.

(** X15.  The loop bound of [ApplySvcContext] is the size of the window,
    not of the register file: a window with more slots than the file has
    registers makes it store past the end of the file. *)
Theorem ApplySvcContext_overrun (svcCtx : SvcContext) (s : Jit32) :
  (length (Regs (jit s)) < length (regs svcCtx))%nat ->
  ApplySvcContext svcCtx s = Undefined.
Proof.
  intros Hlen.
  assert (Hloop : narrow_regs svcCtx (length (regs svcCtx)) (Regs (jit s)) = Undefined).
  { unfold narrow_regs.
    apply (for_loop_copy_overrun static_cast_u32 (regs svcCtx)); simpl; lia. }
  unfold ApplySvcContext. now rewrite Hloop.
Qed.

Lemma ApplySvcContext_overrun_witness :
  (length (Regs (jit scenario_Jit32)) < length (regs scenario_long_window))%nat /\
  ApplySvcContext scenario_long_window scenario_Jit32 = Undefined.
Proof.
  assert (Hlen : (length (Regs (jit scenario_Jit32))
                  < length (regs scenario_long_window))%nat) by (vm_compute; lia).
  split; [exact Hlen|].
  exact (ApplySvcContext_overrun scenario_long_window scenario_Jit32 Hlen).
Defined.

(** ** The driver, end to end *)

(** X16.  When the guest executes [svc #swi] during a run (the engine
    calls [CallSVC swi] and returns the reason [Svc]), [Run] dispatches
    exactly [swi]; the handler runs with the bits of [Svc] no longer
    pending, and if they were not pending before the call the state it
    sees differs from the one the engine left only in the captured
    number. *)
Theorem Run_dispatches_CallSVC (Svc : HaltReason) (SvcTable : list SvcDescriptor)
        (jit_Run : Jit32 -> outcome (N * Jit32)) (s s0 : Jit32) (swi : N) :
  jit_Run s = Ret (Svc, CallSVC Svc swi s0) ->
  Run Svc SvcTable jit_Run s
  = SvcHandler SvcTable swi (ClearHalt Svc (CallSVC Svc swi s0))
  /\ N.land (halt_reason (jit (ClearHalt Svc (CallSVC Svc swi s0)))) Svc = 0
  /\ (N.land (halt_reason (jit s0)) Svc = 0 ->
      ClearHalt Svc (CallSVC Svc swi s0) = set_lastSwi swi s0).
Proof.
  intros Hrun. split; [|split].
  - unfold Run. rewrite Hrun, bind_Ret. cbn [fst snd].
    now rewrite decide_True by reflexivity.
  - apply ldiff_land_same.
  - intros Hfree. destruct s0 as [st c [rg e cp fp h] l d].
    unfold ClearHalt, CallSVC, HaltExecution, jit_ClearHalt, jit_HaltExecution,
      ToDynarmicHaltReason, set_jit, set_halt_reason, set_lastSwi.
    cbn [jit halt_reason Regs ExtRegs Cpsr Fpscr state coreId lastSwi diagnostics] in *.
    now rewrite ldiff_lor_same, ldiff_disjoint by exact Hfree.
Qed.

Lemma Run_dispatches_CallSVC_witness :
  engine_svc 0x01000000 1 scenario_Jit32
  = Ret (0x01000000, CallSVC 0x01000000 1 scenario_Jit32) /\
  Run 0x01000000 scenario_SvcTable (engine_svc 0x01000000 1) scenario_Jit32
  = SvcHandler scenario_SvcTable 1
      (ClearHalt 0x01000000 (CallSVC 0x01000000 1 scenario_Jit32)).
Proof.
  split; [reflexivity|].
  exact (proj1 (Run_dispatches_CallSVC 0x01000000 scenario_SvcTable
                  (engine_svc 0x01000000 1) scenario_Jit32 scenario_Jit32 1 eq_refl)).
Defined.

(** X17.  [Run] does not catch: when the engine stops for a syscall
    whose captured number has an entry without a handler, the
    unimplemented-syscall exception carrying that number leaves [Run];
    an exception thrown by the handler of a populated entry leaves it
    as well. *)
Theorem Run_propagates (Svc : HaltReason) (SvcTable : list SvcDescriptor)
        (jit_Run : Jit32 -> outcome (N * Jit32)) (s s1 : Jit32) :
  jit_Run s = Ret (Svc, s1) ->
  (forall svc,
     SvcTable !! N.to_nat (lastSwi s1) = Some svc -> function svc = None ->
     Run Svc SvcTable jit_Run s = Throw (Unimplemented_SVC (lastSwi s1)))
  /\ (forall svc f e,
        length (Regs (jit s1)) = Regs_size ->
        SvcTable !! N.to_nat (lastSwi s1) = Some svc ->
        function svc = Some f ->
        f (state s1) (mkSvcContext (static_cast_u64 <$> Regs (jit s1))) = Throw e ->
        Run Svc SvcTable jit_Run s = Throw e).
Proof.
  intros Hrun.
  assert (HRun : Run Svc SvcTable jit_Run s
                 = SvcHandler SvcTable (lastSwi s1) (ClearHalt Svc s1)).
  { unfold Run. rewrite Hrun, bind_Ret. cbn [fst snd].
    now rewrite decide_True by reflexivity. }
  rewrite HRun. split.
  - intros svc Hsvc Hnone. now apply (SvcHandler_empty_entry _ _ _ svc).
  - intros svc f e Hlen Hsvc Hf He.
    rewrite (SvcHandler_entry SvcTable (lastSwi s1) (ClearHalt Svc s1) svc f Hlen Hsvc Hf).
    change (state (ClearHalt Svc s1)) with (state s1).
    change (Regs (jit (ClearHalt Svc s1))) with (Regs (jit s1)).
    now rewrite He.
Qed.

Lemma Run_propagates_witness :
  engine_svc 0x01000000 0 scenario_Jit32
  = Ret (0x01000000, CallSVC 0x01000000 0 scenario_Jit32) /\
  scenario_SvcTable !! N.to_nat (lastSwi (CallSVC 0x01000000 0 scenario_Jit32))
  = Some (mkSvcDescriptor None "") /\
  Run 0x01000000 scenario_SvcTable (engine_svc 0x01000000 0) scenario_Jit32
  = Throw (Unimplemented_SVC 0).
Proof.
  split; [reflexivity|]. split; [reflexivity|].
  exact (proj1 (Run_propagates 0x01000000 scenario_SvcTable
                  (engine_svc 0x01000000 0) scenario_Jit32
                  (CallSVC 0x01000000 0 scenario_Jit32) eq_refl)
           (mkSvcDescriptor None "") eq_refl eq_refl).
Defined.

(** ** Loads of different widths *)

Lemma of_bytes_app (l1 l2 : list byte) :
  of_bytes (l1 ++ l2) = of_bytes l1 + 2 ^ (8 * N.of_nat (length l1)) * of_bytes l2.
Proof.
  induction l1 as [|b l1 IH]; cbn [app of_bytes length].
  - change (8 * N.of_nat 0) with 0. rewrite N.pow_0_r. lia.
  - rewrite IH.
    replace (8 * N.of_nat (S (length l1))) with (8 + 8 * N.of_nat (length l1)) by lia.
    rewrite N.pow_add_r. change (2 ^ 8) with u8_max. lia.
Qed.

Lemma memcpy_from_Ret_inv (mem bs : list byte) (off : N) (n : nat) :
  memcpy_from mem off n = Ret bs ->
  (N.to_nat off + n <= length mem)%nat /\ bs = take n (drop (N.to_nat off) mem).
Proof.
  unfold memcpy_from. case_decide as Hin; [|discriminate].
  intros [= <-]. split; [exact Hin | reflexivity].
Qed.

(** X18.  Loads of different widths see the same little-endian bytes: a
    load of width [T] whose bytes are those of a load of width [T1]
    followed by a load of width [T2] returns the first value in its low
    bits and the second value above them, at any alignment. *)
Theorem MemoryRead_split (T T1 T2 : Width) (vaddr lo hi : N) (s : Jit32) :
  sizeof T = sizeof T1 + sizeof T2 ->
  MemoryRead T1 vaddr s = Ret lo ->
  MemoryRead T2 (vaddr + sizeof T1) s = Ret hi ->
  MemoryRead T vaddr s = Ret (lo + T_modulus T1 * hi).
Proof.
  rewrite !MemoryRead_ReadUnaligned. unfold ReadUnaligned. intros Hsz Hlo Hhi.
  destruct (memcpy_from (memory_base (state s)) vaddr (N.to_nat (sizeof T1)))
    as [b1| |] eqn:H1; try discriminate.
  destruct (memcpy_from (memory_base (state s)) (vaddr + sizeof T1) (N.to_nat (sizeof T2)))
    as [b2| |] eqn:H2; try discriminate.
  rewrite bind_Ret in Hlo, Hhi. injection Hlo as <-. injection Hhi as <-.
  pose proof (memcpy_from_length _ _ _ _ H1) as Hl1.
  apply memcpy_from_Ret_inv in H1 as [Hin1 ->].
  apply memcpy_from_Ret_inv in H2 as [Hin2 ->].
  unfold memcpy_from. rewrite decide_True by lia. rewrite bind_Ret. f_equal.
  replace (N.to_nat (sizeof T)) with (N.to_nat (sizeof T1) + N.to_nat (sizeof T2))%nat by lia.
  rewrite <- take_take_drop, of_bytes_app, drop_drop.
  rewrite Hl1, T_modulus_eq.
  replace (N.to_nat (vaddr + sizeof T1)) with (N.to_nat vaddr + N.to_nat (sizeof T1))%nat by lia.
  reflexivity.
Qed.

Lemma MemoryRead_split_witness :
  sizeof U32 = sizeof U16 + sizeof U16 /\
  exists lo hi, MemoryRead U16 0x1001 scenario_Jit32 = Ret lo
    /\ MemoryRead U16 (0x1001 + sizeof U16) scenario_Jit32 = Ret hi
    /\ MemoryRead U32 0x1001 scenario_Jit32 = Ret (lo + T_modulus U16 * hi).
Proof.
  assert (Hsz : sizeof U32 = sizeof U16 + sizeof U16) by reflexivity.
  split; [exact Hsz|].
  destruct (MemoryRead U16 0x1001 scenario_Jit32) as [lo| |] eqn:Hlo;
    [|vm_compute in Hlo; discriminate Hlo..].
  destruct (MemoryRead U16 (0x1001 + sizeof U16) scenario_Jit32) as [hi| |] eqn:Hhi;
    [|vm_compute in Hhi; discriminate Hhi..].
  exists lo, hi. split; [reflexivity|]. split; [reflexivity|].
  exact (MemoryRead_split U32 U16 U16 0x1001 lo hi scenario_Jit32 Hsz Hlo Hhi).
Defined.
